(** * Coupon distribution: the claim flow of [App.tsx] over the store schema

    The development has two layers, as the repository has two files.

    - [Module Db] embeds the SQL migration: the two tables, their
      constraints and defaults, the row-level-security policies and the
      seed statement.  A request of the client is answered by [Db.handle].
    - [Module App] embeds the React component.  The three asynchronous
      functions are written as trees of effects ([Prog]) that follow the
      statements of the source; a tree is run by [exec] up to its next
      [await], where it is parked in the list of suspended tasks until the
      scheduler delivers the store's answer ([step]).

    Time is in milliseconds since the epoch, as [Date.getTime] and
    [Date.now] give it; a [timestamptz] column is read at that
    granularity. *)

From Stdlib Require Import ZArith QArith.
From stdpp Require Import gmap strings list sorting pretty.

Open Scope Z_scope.

(** ** Rows *)

(** A row of [coupons]; also the object [select('*')] hands to the client
    (the interface [Coupon] of [App.tsx] names the first four columns).
    [is_claimed] is written by the column default and by the client's
    patch only, so it is never [NULL]. *)
Module Coupon.

Record t : Type := mk {
  id : string;
  code : string;
  description : string;
  is_claimed : bool;
  created_at : Z
}.

Definition set_is_claimed (b : bool) (c : t) : t :=
  mk (id c) (code c) (description c) b (created_at c).

End Coupon.

(** A row of [claims].  [claimed_at] always comes from the column default
    [now()]: the client never sends it. *)
Module Claim.

Record t : Type := mk {
  id : string;
  coupon_id : string;
  ip_address : string;
  browser_id : string;
  claimed_at : Z
}.

End Claim.

(** What [await supabase...] resolves to: [{ data, error }] with exactly
    one of the two set. *)
Inductive Response (A : Type) : Type :=
| Ok (data : A)
| Err.
Arguments Ok {A} data.
Arguments Err {A}.

(** The [data] component: [null] when the request failed. *)
Definition data_of {A : Type} (r : Response A) : option A :=
  match r with Ok d => Some d | Err => None end.

(** The [error] component, as a truth value. *)
Definition error_of {A : Type} (r : Response A) : bool :=
  match r with Ok _ => false | Err => true end.

(** The requests [App.tsx] builds.  The update carries its patch so that
    the policy can be stated against any patch. *)
Inductive Request : Type → Type :=
| SelectCoupons : Request (list Coupon.t)
    (* from('coupons').select('*').order('created_at', {ascending: true}) *)
| SelectRecentClaim : Request (list Z)
    (* from('claims').select('claimed_at')
         .order('claimed_at', {ascending: false}).limit(1) *)
| UpdateCoupon (patch_is_claimed : bool) (id : string) : Request unit
    (* from('coupons').update({is_claimed: patch}).eq('id', id) *)
| InsertClaim (coupon_id browser_id ip_address : string) : Request unit.
    (* from('claims').insert([{coupon_id, browser_id, ip_address}]) *)

(** ** The store *)

Module Db.

Record t : Type := mk {
  coupons : list Coupon.t;
  claims : list Claim.t
}.

Definition created_le (a b : Coupon.t) : Prop :=
  Coupon.created_at a ≤ Coupon.created_at b.

Definition claimed_ge (a b : Claim.t) : Prop :=
  Claim.claimed_at b ≤ Claim.claimed_at a.

#[global] Instance created_le_dec a b : Decision (created_le a b).
Proof. unfold created_le. apply _. Defined.

#[global] Instance claimed_ge_dec a b : Decision (claimed_ge a b).
Proof. unfold claimed_ge. apply _. Defined.

(** [ORDER BY created_at ASC].  SQL does not fix the order of rows of
    equal [created_at]; the store returns them in the order of the table,
    as for the rows of the seed, which share one [created_at]: a row goes
    before the first row that is not older than it. *)
Fixpoint insert_by_created_at (c : Coupon.t) (l : list Coupon.t)
    : list Coupon.t :=
  match l with
  | [] => [c]
  | x :: l' =>
      if decide (created_le c x) then c :: x :: l'
      else x :: insert_by_created_at c l'
  end.

Definition order_by_created_at (l : list Coupon.t) : list Coupon.t :=
  foldr insert_by_created_at [] l.

(** Policy "Anyone can read coupons": [USING (true)], every row is
    visible. *)
Definition select_coupons (s : t) : list Coupon.t :=
  order_by_created_at (coupons s).

(** Policy "Anyone can read their own claims": [USING (true)], every row
    of every visitor is visible.  [ORDER BY claimed_at DESC LIMIT 1],
    projected on [claimed_at]. *)
Definition select_recent_claim (s : t) : list Z :=
  Claim.claimed_at <$> take 1 (merge_sort claimed_ge (claims s)).

(** Policy "Anyone can update unclaimed coupons": [USING (NOT is_claimed)]
    hides claimed rows from the update, [WITH CHECK (true)] accepts any
    new row.  A row the policy hides is skipped and the statement still
    succeeds. *)
Definition update_row (patch : bool) (id : string) (c : Coupon.t) : Coupon.t :=
  if bool_decide (Coupon.id c = id) && negb (Coupon.is_claimed c)
  then Coupon.set_is_claimed patch c
  else c.

Definition update_coupon (patch : bool) (id : string) (s : t) : t :=
  mk (update_row patch id <$> coupons s) (claims s).

(** [coupon_id uuid REFERENCES coupons(id)] *)
Definition references_coupon (coupon_id : string) (s : t) : bool :=
  existsb (λ c, bool_decide (Coupon.id c = coupon_id)) (coupons s).

(** [id uuid PRIMARY KEY] on [claims] *)
Definition claim_id_taken (id : string) (s : t) : bool :=
  existsb (λ c, bool_decide (Claim.id c = id)) (claims s).

(** Policy "Anyone can create claims": [WITH CHECK (true)].  The row gets
    [id] from [gen_random_uuid()] and [claimed_at] from [now()]; the
    statement fails on a foreign-key or primary-key violation. *)
Definition insert_claim (coupon_id browser_id ip_address : string)
    (gen_random_uuid : string) (now : Z) (s : t) : Response unit * t :=
  if references_coupon coupon_id s && negb (claim_id_taken gen_random_uuid s)
  then (Ok (),
        mk (coupons s)
           (claims s ++
            [Claim.mk gen_random_uuid coupon_id ip_address browser_id now]))
  else (Err, s).

(** The store's answer to a request that reached it. *)
Definition handle {X : Type} (req : Request X)
    (gen_random_uuid : string) (now : Z) (s : t) : Response X * t :=
  match req in Request X return Response X * t with
  | SelectCoupons => (Ok (select_coupons s), s)
  | SelectRecentClaim => (Ok (select_recent_claim s), s)
  | UpdateCoupon patch id => (Ok (), update_coupon patch id s)
  | InsertClaim coupon_id browser_id ip_address =>
      insert_claim coupon_id browser_id ip_address gen_random_uuid now s
  end.

(** *** Seed *)

(** The [VALUES] list of the seed statement. *)
Definition sample_coupons : list (string * string) :=
  [ ("SAVE10", "10% off your next purchase");
    ("FREESHIP", "Free shipping on orders over $50");
    ("SPRING25", "25% off spring collection");
    ("WELCOME15", "15% off for new customers");
    ("FLASH50", "50% off flash sale") ].

(** [id uuid PRIMARY KEY] and [code text UNIQUE] on [coupons]. *)
Definition coupon_conflict (row : Coupon.t) (tbl : list Coupon.t) : bool :=
  existsb (λ c, bool_decide (Coupon.id c = Coupon.id row)
                || bool_decide (Coupon.code c = Coupon.code row)) tbl.

(** One row of [INSERT ... ON CONFLICT DO NOTHING]. *)
Definition insert_coupon_do_nothing (row : Coupon.t) (tbl : list Coupon.t)
    : list Coupon.t :=
  if coupon_conflict row tbl then tbl else tbl ++ [row].

(** The rows the statement proposes: [id] from the [n]-th call of
    [gen_random_uuid()], [is_claimed] from [DEFAULT false], [created_at]
    from [now()], which is the same for the whole statement. *)
Definition seed_rows (gen_random_uuid : nat → string) (now : Z)
    : list Coupon.t :=
  imap (λ n cd, Coupon.mk (gen_random_uuid n) cd.1 cd.2 false now)
       sample_coupons.

Definition seed (gen_random_uuid : nat → string) (now : Z) (s : t) : t :=
  mk (foldl (λ tbl row, insert_coupon_do_nothing row tbl)
            (coupons s) (seed_rows gen_random_uuid now))
     (claims s).

End Db.

(** ** The client *)

Module App.

(** *** Effect trees *)

(** How a block of statements ends: by falling through, by [return], or
    by [throw]. *)
Inductive Completion : Type := Normal | Return | Throw.

(** What the component's functions do to their surroundings. *)
Inductive Eff : Type → Type :=
| SetCoupons (v : list Coupon.t) : Eff unit
| SetLoading (v : bool) : Eff unit
| SetClaiming (v : bool) : Eff unit
| SetNextClaimTime (v : option Z) : Eff unit
| SetTimeLeft (v : option string) : Eff unit
| ToastError (msg : string) : Eff unit
| ToastSuccess (msg : string) : Eff unit
| ConsoleError : Eff unit
| DateNow : Eff Z
| RandomUUID : Eff string
| GetItem (key : string) : Eff (option string)
| SetItem (key value : string) : Eff unit
| Await {X : Type} (req : Request X) : Eff (Response X).

(** A function body.  [Fork child k] is the call of an [async] function
    whose promise is dropped: the callee runs up to its first [await],
    then the caller goes on. *)
Inductive Prog : Type :=
| Done (c : Completion)
| Vis {X : Type} (e : Eff X) (k : X → Prog)
| Fork (child : Prog) (k : Prog).

(** Graft a continuation on every leaf. *)
Fixpoint on_completion (p : Prog) (f : Completion → Prog) : Prog :=
  match p with
  | Done c => f c
  | Vis e k => Vis e (λ x, on_completion (k x) f)
  | Fork child k => Fork child (on_completion k f)
  end.

(** [p; q] *)
Definition seq (p q : Prog) : Prog :=
  on_completion p (λ c, match c with Normal => q | _ => Done c end).

(** A call [f()] of a synchronous function: its [return] ends the callee
    only. *)
Definition call (body : Prog) : Prog :=
  on_completion body
    (λ c, match c with Throw => Done Throw | _ => Done Normal end).

(** [try { body } catch (error) { handler } finally { final }] *)
Definition try_catch_finally (body handler final : Prog) : Prog :=
  on_completion body
    (λ c, match c with
          | Throw => seq handler final
          | _ => seq final (Done c)
          end).

(** An effect as a statement, its result dropped. *)
Definition perform {X : Type} (e : Eff X) : Prog := Vis e (λ _, Done Normal).

Declare Scope prog_scope.
Delimit Scope prog_scope with prog.
Bind Scope prog_scope with Prog.
Notation "p ;; q" := (seq p q)
  (at level 100, q at level 200, right associativity) : prog_scope.
Notation "'let!' x ':=' e 'in' k" := (Vis e (λ x, k))
  (at level 10, x name, e at level 100, k at level 200) : prog_scope.
Open Scope prog_scope.

(** *** The component's state *)

(** The five [useState] cells, as one render sees them.  The functions
    below are created anew by every render and read these cells as
    constants of that render: a setter changes what the next render sees,
    never what a function already running reads. *)
Record State : Type := mkState {
  coupons : list Coupon.t;
  loading : bool;
  claiming : bool;
  nextClaimTime : option Z;
  timeLeft : option string
}.

(** [useState] initial values. *)
Definition initial_state : State := mkState [] true false None None.

(** JavaScript truthiness of a [number | null]. *)
Definition truthy_number (v : option Z) : bool :=
  match v with Some n => negb (n =? 0) | None => false end.

(** [hoursSinceLastClaim < 1].  The quotient is taken in the rationals;
    on integral millisecond counts the rounding of [Number] division is
    monotone and cannot move a quotient across 1. *)
Definition hoursSinceLastClaim (now lastClaim : Z) : Q :=
  (inject_Z (now - lastClaim) / inject_Z (1000 * 60 * 60))%Q.

Definition Qltb (x y : Q) : bool := negb (Qle_bool y x).

(** [updateTimeLeft], closed over the render [r]. *)
Definition updateTimeLeft (r : State) : Prog :=
  if negb (truthy_number (nextClaimTime r)) then Done Return else
  let nextClaimTime_ms := default 0 (nextClaimTime r) in
  let! now := DateNow in
  let diff := nextClaimTime_ms - now in
  if diff <=? 0 then
    perform (SetTimeLeft None) ;;
    perform (SetNextClaimTime None) ;;
    Done Return
  else
    let minutes := diff / 60000 in
    let seconds := Z.rem diff 60000 / 1000 in
    perform (SetTimeLeft
               (Some (pretty minutes +:+ "m " +:+ pretty seconds +:+ "s"))).

(** [fetchCoupons] *)
Definition fetchCoupons : Prog :=
  try_catch_finally
    (let! resp := Await SelectCoupons in
     match resp with
     | Err => Done Throw
     | Ok data => perform (SetCoupons data)
     end)
    (perform (ToastError "Failed to load coupons") ;;
     perform ConsoleError)
    (perform (SetLoading false)).

(** [checkLastClaim] *)
Definition checkLastClaim : Prog :=
  let! resp := Await SelectRecentClaim in
  match data_of resp with
  | Some (claimed_at :: _) =>
      let lastClaim := claimed_at in
      let nextAvailable := lastClaim + 60 * 60 * 1000 in
      perform (SetNextClaimTime (Some nextAvailable))
  | _ => Done Normal
  end.

(** [claimCoupon], closed over the render [r]: [claiming], [coupons] and,
    through [updateTimeLeft], [nextClaimTime] are the values of that
    render for the whole run, across every [await]. *)
Definition claimCoupon (r : State) : Prog :=
  if claiming r then Done Return else
  try_catch_finally
    (perform (SetClaiming true) ;;
     match find (λ c, negb (Coupon.is_claimed c)) (coupons r) with
     | None =>
         perform (ToastError "No coupons available") ;;
         Done Return
     | Some availableCoupon =>
         let! resp := Await SelectRecentClaim in
         match data_of resp with
         | Some (claimed_at :: _) =>
             let lastClaim := claimed_at in
             let! now := DateNow in
             if Qltb (hoursSinceLastClaim now lastClaim) 1 then
               let nextAvailable := lastClaim + 60 * 60 * 1000 in
               perform (SetNextClaimTime (Some nextAvailable)) ;;
               call (updateTimeLeft r) ;;
               perform (ToastError "Please wait 1 hour between claims") ;;
               Done Return
             else Done Normal
         | _ => Done Normal
         end ;;
         let! stored := GetItem "browser_id" in
         let rest (browserId : string) : Prog :=
           let! updateResp :=
             Await (UpdateCoupon true (Coupon.id availableCoupon)) in
           (if error_of updateResp then Done Throw else Done Normal) ;;
           let! claimResp :=
             Await (InsertClaim (Coupon.id availableCoupon)
                                browserId "client-ip") in
           (if error_of claimResp then Done Throw else Done Normal) ;;
           perform (ToastSuccess
                      ("Claimed coupon: " +:+ Coupon.code availableCoupon)) ;;
           Fork fetchCoupons (Fork checkLastClaim (Done Normal)) in
         match stored with
         | Some browserId =>
             if String.eqb browserId "" then
               let! browserId := RandomUUID in
               perform (SetItem "browser_id" browserId) ;;
               rest browserId
             else rest browserId
         | None =>
             let! browserId := RandomUUID in
             perform (SetItem "browser_id" browserId) ;;
             rest browserId
         end
     end)
    (perform (ToastError "Failed to claim coupon") ;;
     perform ConsoleError)
    (perform (SetClaiming false)).

(** *** Running a tree *)

(** What the user is shown or the console receives. *)
Inductive Notice : Type :=
| ToastErrorShown (msg : string)
| ToastSuccessShown (msg : string)
| ConsoleErrorLogged.

(** An [async] function parked at an [await]. *)
Inductive Task : Type :=
| Suspended {X : Type} (e : Eff X) (k : X → Prog).

(** One browser tab: the committed React state, [localStorage], what was
    shown so far, the parked functions, and how many times the clock and
    the random source were read. *)
Record Client : Type := mkClient {
  state : State;
  localStorage : gmap string string;
  notices : list Notice;
  suspended : list Task;
  date_reads : nat;
  uuid_reads : nat
}.

(** A tab that has rendered once and run nothing yet. *)
Definition initial_client : Client := mkClient initial_state ∅ [] [] 0 0.

(** What the tab cannot decide: the readings of [Date.now()] and the
    values of [crypto.randomUUID()], in the order they are asked for. *)
Record Oracle : Type := mkOracle {
  date_now : nat → Z;
  random_uuid : nat → string
}.

(** Field updates of [Client]. *)
Definition set_state (f : State → State) (c : Client) : Client :=
  mkClient (f (state c)) (localStorage c) (notices c) (suspended c)
           (date_reads c) (uuid_reads c).

Definition notify (n : Notice) (c : Client) : Client :=
  mkClient (state c) (localStorage c) (notices c ++ [n]) (suspended c)
           (date_reads c) (uuid_reads c).

Definition park (t : Task) (c : Client) : Client :=
  mkClient (state c) (localStorage c) (notices c) (suspended c ++ [t])
           (date_reads c) (uuid_reads c).

Definition unpark (i : nat) (c : Client) : Client :=
  mkClient (state c) (localStorage c) (notices c) (delete i (suspended c))
           (date_reads c) (uuid_reads c).

(** A synchronous effect: its result and the client after it.  [None]
    for an [await], which gives control back instead. *)
Definition sync (o : Oracle) {X : Type} (e : Eff X) (c : Client)
    : option (X * Client) :=
  match e in Eff X return option (X * Client) with
  | SetCoupons v =>
      Some ((), set_state (λ s, mkState v (loading s) (claiming s)
                                        (nextClaimTime s) (timeLeft s)) c)
  | SetLoading v =>
      Some ((), set_state (λ s, mkState (coupons s) v (claiming s)
                                        (nextClaimTime s) (timeLeft s)) c)
  | SetClaiming v =>
      Some ((), set_state (λ s, mkState (coupons s) (loading s) v
                                        (nextClaimTime s) (timeLeft s)) c)
  | SetNextClaimTime v =>
      Some ((), set_state (λ s, mkState (coupons s) (loading s) (claiming s)
                                        v (timeLeft s)) c)
  | SetTimeLeft v =>
      Some ((), set_state (λ s, mkState (coupons s) (loading s) (claiming s)
                                        (nextClaimTime s) v) c)
  | ToastError msg => Some ((), notify (ToastErrorShown msg) c)
  | ToastSuccess msg => Some ((), notify (ToastSuccessShown msg) c)
  | ConsoleError => Some ((), notify ConsoleErrorLogged c)
  | DateNow =>
      Some (date_now o (date_reads c),
            mkClient (state c) (localStorage c) (notices c) (suspended c)
                     (S (date_reads c)) (uuid_reads c))
  | RandomUUID =>
      Some (random_uuid o (uuid_reads c),
            mkClient (state c) (localStorage c) (notices c) (suspended c)
                     (date_reads c) (S (uuid_reads c)))
  | GetItem key => Some (localStorage c !! key, c)
  | SetItem key value =>
      Some ((), mkClient (state c) (<[key := value]> (localStorage c))
                         (notices c) (suspended c)
                         (date_reads c) (uuid_reads c))
  | Await _ => None
  end.

(** Run a function body until it ends or parks. State setters take effect
    on the committed state at once; the body itself never reads it back,
    it reads the render it was closed over. *)
Fixpoint exec (o : Oracle) (p : Prog) (c : Client) : Client :=
  match p with
  | Done _ => c
  | Vis e k =>
      match sync o e c with
      | Some (x, c') => exec o (k x) c'
      | None => park (Suspended e k) c
      end
  | Fork child k => exec o k (exec o child c)
  end.

(** *** The event loop *)

(** The tab and the store all visitors share. *)
Record World : Type := mkWorld {
  client : Client;
  db : Db.t
}.

(** Whether a request got through, and if so the values the store drew
    for [gen_random_uuid()] and [now()] while serving it. *)
Inductive Net : Type :=
| Failed
| Reached (gen_random_uuid : string) (now : Z).

(** A request that does not get through is answered with an error and
    leaves the store as it is. *)
Definition answer {X : Type} (req : Request X) (net : Net) (s : Db.t)
    : Response X * Db.t :=
  match net with
  | Failed => (Err, s)
  | Reached gen_random_uuid now => Db.handle req gen_random_uuid now s
  end.

(** [disabled={claiming || loading || timeLeft !== null}] *)
Definition button_disabled (s : State) : bool :=
  claiming s || loading s || bool_decide (timeLeft s ≠ None).

(** What can happen next. *)
Inductive Label : Type :=
| Mount      (* the first effect: fetchCoupons(); checkLastClaim() *)
| Invoke     (* a call of claimCoupon of the current render *)
| Click      (* a click on the button *)
| Tick       (* the one-second interval fires *)
| Deliver (i : nat) (net : Net)
             (* the i-th parked request is answered *)
| Elsewhere {X : Type} (req : Request X) (net : Net).
             (* the store serves a request of another visitor *)

(** The answer to a parked request resumes its function. *)
Definition resume (o : Oracle) (i : nat) (net : Net) (t : Task) (w : World)
    : World :=
  match t with
  | Suspended e k =>
      match e in Eff X return (X → Prog) → World with
      | Await req => λ k,
          let '(resp, db') := answer req net (db w) in
          mkWorld (exec o (k resp) (unpark i (client w))) db'
      | _ => λ _, w
      end k
  end.

(** One turn of the event loop.  React commits what a turn has set before
    the next turn starts, so every label meets the functions of a render
    that sees the committed state. *)
Definition step (o : Oracle) (l : Label) (w : World) : World :=
  let c := client w in
  match l with
  | Mount =>
      mkWorld (exec o (Fork fetchCoupons (Fork checkLastClaim (Done Normal))) c)
              (db w)
  | Invoke => mkWorld (exec o (claimCoupon (state c)) c) (db w)
  | Click =>
      if button_disabled (state c) then w
      else mkWorld (exec o (claimCoupon (state c)) c) (db w)
  | Tick =>
      if truthy_number (nextClaimTime (state c))
      then mkWorld (exec o (call (updateTimeLeft (state c))) c) (db w)
      else w
  | Deliver i net =>
      match suspended c !! i with
      | Some t => resume o i net t w
      | None => w
      end
  | Elsewhere req net => mkWorld c (answer req net (db w)).2
  end.

(** A schedule, from left to right. *)
Definition run (o : Oracle) (ls : list Label) (w : World) : World :=
  foldl (λ w l, step o l w) w ls.

(** One claim attempt followed to its end without anything in between:
    the call, then the answers to its (at most three) requests, which sit
    behind whatever was parked before. *)
Definition attempt (o : Oracle) (n1 n2 n3 : Net) (w : World) : World :=
  let i := length (suspended (client w)) in
  run o [Invoke; Deliver i n1; Deliver i n2; Deliver i n3] w.

End App.

(** * Vocabulary of the statements *)

Module Spec.
Import App.

(** The greatest of a list of timestamps. *)
Definition latest (ts : list Z) : option Z :=
  match ts with
  | [] => None
  | t :: ts' => Some (foldr Z.max t ts')
  end.

(** The timestamp of the most recent claim record of the whole table. *)
Definition most_recent_claim (d : Db.t) : option Z :=
  latest (Claim.claimed_at <$> Db.claims d).

(** What a rate-limit query brings back to the client: the most recent
    claim's timestamp, or nothing when the request fails or the table is
    empty. *)
Definition last_claim_seen (net : Net) (d : Db.t) : option Z :=
  match net with
  | Failed => None
  | Reached _ _ => most_recent_claim d
  end.

(** One hour, in milliseconds. *)
Definition hour : Z := 3600000.

(** The cooldown does not stop an attempt that reads the clock as [now]
    after its rate-limit query brought back [seen]. *)
Definition cooldown_over (seen : option Z) (now : Z) : Prop :=
  ∀ T, seen = Some T → hour ≤ now - T.

(** [c] is the first element of [l] whose claimed flag is false. *)
Definition first_unclaimed (l : list Coupon.t) (c : Coupon.t) : Prop :=
  ∃ l1 l2, l = l1 ++ c :: l2
           ∧ Forall (λ x, Coupon.is_claimed x = true) l1
           ∧ Coupon.is_claimed c = false.

(** A request of any result type. *)
Inductive AnyRequest : Type :=
| any {X : Type} (req : Request X).

Definition awaited (t : Task) : option AnyRequest :=
  match t with
  | Suspended e _ =>
      match e with
      | Await req => Some (any req)
      | _ => None
      end
  end.

(** The requests a client has sent and not yet had answered. *)
Definition requests_in_flight (c : Client) : list AnyRequest :=
  omap awaited (suspended c).

(** [P] holds of every request a body can send, whatever its effects
    return; with [main_only] the functions it forks are left out. *)
Fixpoint every_request (main_only : bool) (P : ∀ X, Request X → Prop)
    (p : Prog) : Prop :=
  match p with
  | Done _ => True
  | Vis e k =>
      match e with
      | Await req => P _ req
      | _ => True
      end ∧ ∀ x, every_request main_only P (k x)
  | Fork child k =>
      (if main_only then True else every_request main_only P child)
      ∧ every_request main_only P k
  end.

(** From [d] to [d'] every coupon row is still there, in place, under the
    same identifier, and a row that was claimed is claimed; rows may have
    been added behind. *)
Definition flags_only_rise (d d' : Db.t) : Prop :=
  ∃ kept added,
    Db.coupons d' = kept ++ added
    ∧ Forall2 (λ a b, Coupon.id a = Coupon.id b
                      ∧ (Coupon.is_claimed a = true → b = a))
              (Db.coupons d) kept.

(** The insert of a claim for [coupon_id] does not go through. *)
Definition insert_rejected (coupon_id : string) (net : Net) (d : Db.t) : Prop :=
  match net with
  | Failed => True
  | Reached gen_random_uuid _ =>
      Db.references_coupon coupon_id d
      && negb (Db.claim_id_taken gen_random_uuid d) = false
  end.


(** The only patch a coupon update may carry is [is_claimed: true]. *)
Definition sets_flag_true (X : Type) (req : Request X) : Prop :=
  match req with
  | UpdateCoupon patch _ => patch = true
  | _ => True
  end.

(** The request is not a coupon update. *)
Definition no_coupon_write (X : Type) (req : Request X) : Prop :=
  match req with
  | UpdateCoupon _ _ => False
  | _ => True
  end.

(** *** Lists in creation order *)

Definition in_creation_order (l : list Coupon.t) : Prop :=
  StronglySorted Db.created_le l.

(** The effect does not set the list to one out of creation order. *)
Definition effect_in_order {X : Type} (e : Eff X) : Prop :=
  match e with
  | SetCoupons v => in_creation_order v
  | _ => True
  end.

(** The answer to a listing query is in creation order. *)
Definition answer_in_order {X : Type} (req : Request X)
    : Response X → Prop :=
  match req in Request X return Response X → Prop with
  | SelectCoupons =>
      λ resp, match resp with
              | Ok l => in_creation_order l
              | Err => True
              end
  | _ => λ _, True
  end.

Definition result_in_order {X : Type} (e : Eff X) : X → Prop :=
  match e in Eff X return X → Prop with
  | Await req => answer_in_order req
  | _ => λ _, True
  end.

(** A body that keeps the list in creation order as long as the listing
    queries it awaits are answered in creation order. *)
Fixpoint keeps_order (p : Prog) : Prop :=
  match p with
  | Done _ => True
  | Vis e k => effect_in_order e ∧ ∀ x, result_in_order e x → keeps_order (k x)
  | Fork child k => keeps_order child ∧ keeps_order k
  end.

Definition task_keeps_order (t : Task) : Prop :=
  match t with
  | Suspended e k => ∀ x, result_in_order e x → keeps_order (k x)
  end.

(** The list of the tab is in creation order and so it stays whatever
    parked function is resumed. *)
Definition ordered_client (c : Client) : Prop :=
  in_creation_order (coupons (state c))
  ∧ Forall task_keeps_order (suspended c).

End Spec.
(** ** The constraints of the schema *)

Module Schema.

(** [coupon_id uuid REFERENCES coupons(id)]: every claim record names a
    coupon of the table. *)
Definition referential (d : Db.t) : Prop :=
  Forall (λ cl, Db.references_coupon (Claim.coupon_id cl) d = true)
         (Db.claims d).

(** [id uuid PRIMARY KEY] on [claims]. *)
Definition claim_ids_unique (d : Db.t) : Prop :=
  NoDup (Claim.id <$> Db.claims d).

(** [id uuid PRIMARY KEY] and [code text UNIQUE] on [coupons]. *)
Definition coupon_keys_unique (d : Db.t) : Prop :=
  NoDup (Coupon.id <$> Db.coupons d) ∧ NoDup (Coupon.code <$> Db.coupons d).

End Schema.

(** ** What a function body can do to the stored identifier and to the
    in-flight flag *)

Module Guards.
Import App Spec.

(** [localStorage] holds a usable browser identifier. *)
Definition identified (c : Client) (b : string) : Prop :=
  localStorage c !! "browser_id" = Some b ∧ b ≠ "".

(** What a body knows after an effect about the identifier being
    missing: a read of the key tells, a write or an [await] forgets. *)
Definition missing_after (missing : bool) {X : Type} (e : Eff X) : X → bool :=
  match e in Eff X return X → bool with
  | GetItem key =>
      λ stored,
        if String.eqb key "browser_id" then
          match stored with
          | Some b => String.eqb b ""
          | None => true
          end
        else missing
  | SetItem _ _ => λ _, false
  | Await _ => λ _, false
  | _ => λ _, missing
  end.

(** The effect writes to [localStorage] only when the identifier is known
    to be missing. *)
Definition writes_when_missing (missing : bool) {X : Type} (e : Eff X)
    : Prop :=
  match e with
  | SetItem _ _ => missing = true
  | _ => True
  end.

(** A body that never writes to [localStorage] unless it has just read
    that the identifier is missing. *)
Fixpoint keeps_identifier (missing : bool) (p : Prog) : Prop :=
  match p with
  | Done _ => True
  | Vis e k =>
      writes_when_missing missing e
      ∧ ∀ x, keeps_identifier (missing_after missing e x) (k x)
  | Fork child k => keeps_identifier false child ∧ keeps_identifier false k
  end.

Definition task_keeps_identifier (t : Task) : Prop :=
  match t with
  | Suspended e k => ∀ x, keeps_identifier false (k x)
  end.

(** A request that writes to the store. *)
Definition is_write (r : AnyRequest) : bool :=
  match r with
  | any req =>
      match req with
      | UpdateCoupon _ _ | InsertClaim _ _ _ => true
      | _ => false
      end
  end.

(** The effect neither sets the in-flight flag nor awaits a write. *)
Definition bystander_effect {X : Type} (e : Eff X) : Prop :=
  match e with
  | SetClaiming _ => False
  | Await req => is_write (any req) = false
  | _ => True
  end.

(** A body that leaves the in-flight flag alone and only reads the
    store. *)
Fixpoint bystander (p : Prog) : Prop :=
  match p with
  | Done _ => True
  | Vis e k => bystander_effect e ∧ ∀ x, bystander (k x)
  | Fork child k => bystander child ∧ bystander k
  end.

Definition bystander_task (t : Task) : Prop :=
  match t with
  | Suspended e k => bystander_effect e ∧ ∀ x, bystander (k x)
  end.

(** The in-flight flag as the body leaves it after an effect. *)
Definition held_after (held : bool) {X : Type} (e : Eff X) : bool :=
  match e with
  | SetClaiming v => v
  | _ => held
  end.

(** The body awaits only while it holds the flag. *)
Definition awaits_while_held (held : bool) {X : Type} (e : Eff X) : Prop :=
  match e with
  | Await _ => held = true
  | _ => True
  end.

(** A body that holds the in-flight flag at each of its [await]s, has
    released it when it ends, and forks only bystanders. *)
Fixpoint releases (held : bool) (p : Prog) : Prop :=
  match p with
  | Done _ => held = false
  | Vis e k =>
      awaits_while_held held e ∧ ∀ x, releases (held_after held e) (k x)
  | Fork child k => bystander child ∧ releases held k
  end.

Definition holder_task (t : Task) : Prop :=
  match t with
  | Suspended e k => ∀ x, releases true (k x)
  end.

(** Either the flag is down and every parked function is a bystander, or
    it is up and exactly one parked function holds it. *)
Definition single_flight (c : Client) : Prop :=
  (claiming (state c) = false ∧ Forall bystander_task (suspended c))
  ∨ (claiming (state c) = true
     ∧ ∃ before holder after,
         suspended c = before ++ holder :: after
         ∧ holder_task holder
         ∧ Forall bystander_task (before ++ after)).

(** The body never raises the loading flag. *)
Definition lowers_loading_effect {X : Type} (e : Eff X) : Prop :=
  match e with
  | SetLoading v => v = false
  | _ => True
  end.

Fixpoint lowers_loading (p : Prog) : Prop :=
  match p with
  | Done _ => True
  | Vis e k => lowers_loading_effect e ∧ ∀ x, lowers_loading (k x)
  | Fork child k => lowers_loading child ∧ lowers_loading k
  end.

Definition task_lowers_loading (t : Task) : Prop :=
  match t with
  | Suspended e k => ∀ x, lowers_loading (k x)
  end.

(** A countdown text is shown only while a deadline is set. *)
Definition countdown_has_deadline (s : State) : Prop :=
  timeLeft s ≠ None → nextClaimTime s ≠ None.

(** What a body knows after an effect: that a deadline is set, that no
    countdown text is shown.  An [await] forgets both. *)
Definition deadline_after (deadline : bool) {X : Type} (e : Eff X) : bool :=
  match e with
  | SetNextClaimTime v => bool_decide (v ≠ None)
  | Await _ => false
  | _ => deadline
  end.

Definition cleared_after (cleared : bool) {X : Type} (e : Eff X) : bool :=
  match e with
  | SetTimeLeft v => bool_decide (v = None)
  | Await _ => false
  | _ => cleared
  end.

(** The effect shows a text only when a deadline is known to be set, and
    drops the deadline only when no text is known to be shown. *)
Definition countdown_effect (deadline cleared : bool) {X : Type} (e : Eff X)
    : Prop :=
  match e with
  | SetTimeLeft (Some _) => deadline = true
  | SetNextClaimTime None => cleared = true
  | _ => True
  end.

Fixpoint keeps_countdown (deadline cleared : bool) (p : Prog) : Prop :=
  match p with
  | Done _ => True
  | Vis e k =>
      countdown_effect deadline cleared e
      ∧ ∀ x, keeps_countdown (deadline_after deadline e)
                             (cleared_after cleared e) (k x)
  | Fork child k =>
      keeps_countdown deadline cleared child ∧ keeps_countdown false false k
  end.

Definition task_keeps_countdown (t : Task) : Prop :=
  match t with
  | Suspended e k => ∀ x, keeps_countdown false false (k x)
  end.

End Guards.


(** * Concrete runs *)

(** A seeded store, a visitor's tab and other visitors' claims, used to
    instantiate the statements below. *)
Module Scenario.
Import App.

Definition minute : Z := 60000.

Definition row_ids (n : nat) : string := "coupon-" +:+ pretty n.

(** The store right after the migration ran at time 0. *)
Definition seeded : Db.t := Db.seed row_ids 0 (Db.mk [] []).

(** A clock that starts at [t0] and advances one millisecond per reading,
    and a random source that numbers its identifiers. *)
Definition clock_from (t0 : Z) : Oracle :=
  mkOracle (λ n, t0 + Z.of_nat n) (λ n, "browser-" +:+ pretty n).

(** The page is opened at time [t] and its two initial reads are answered. *)
Definition open_page (t : Z) : list Label :=
  [Mount; Deliver 0 (Reached "" t); Deliver 0 (Reached "" t)].

(** Another visitor [browser] claims the coupon [id] at time [t]: the two
    writes of their tab reach the store. *)
Definition claimed_elsewhere (id claim_id browser : string) (t : Z)
    : list Label :=
  [Elsewhere (UpdateCoupon true id) (Reached "" t);
   Elsewhere (InsertClaim id browser "client-ip") (Reached claim_id t)].

(** The page opened on the seeded store before anyone claimed. *)
Definition quiet (o : Oracle) : World :=
  run o (open_page minute) (mkWorld initial_client seeded).

(** The page opened on the seeded store; five minutes later another
    visitor claims a coupon. *)
Definition overtaken (o : Oracle) : World :=
  run o (open_page minute
         ++ claimed_elsewhere "coupon-0" "claim-1" "someone-else" (6 * minute))
      (mkWorld initial_client seeded).

(** Another visitor claimed one minute after the seed.  Two hours after
    the seed the page is opened, which sets the deadline of a cooldown
    that is already over; a tenth of a second later, before the first
    tick of the interval, a third visitor claims. *)
Definition stale_deadline (o : Oracle) : World :=
  run o (claimed_elsewhere "coupon-0" "claim-1" "someone-else" minute
         ++ open_page (120 * minute)
         ++ claimed_elsewhere "coupon-1" "claim-2" "a-third"
                              (120 * minute + 100))
      (mkWorld initial_client seeded).

(** Every coupon of the store is claimed by other visitors, one per hour
    and a minute, then the page is opened. *)
Definition exhausted (o : Oracle) : World :=
  run o (claimed_elsewhere "coupon-0" "claim-0" "v0" (1 * minute)
         ++ claimed_elsewhere "coupon-1" "claim-1" "v1" (62 * minute)
         ++ claimed_elsewhere "coupon-2" "claim-2" "v2" (123 * minute)
         ++ claimed_elsewhere "coupon-3" "claim-3" "v3" (184 * minute)
         ++ claimed_elsewhere "coupon-4" "claim-4" "v4" (245 * minute)
         ++ open_page (400 * minute))
      (mkWorld initial_client seeded).

End Scenario.

(** Further runs. *)
Module MoreScenarios.
Import App.

(** The visitor of [Scenario.overtaken] clicks and the rate-limit query is
    answered: the attempt is refused when the clock of [o] is inside the
    hour that follows minute 6. *)
Definition refused (o : Oracle) : World :=
  run o [Click; Deliver 0 (Reached "" 0)] (Scenario.overtaken o).

End MoreScenarios.

(** * Properties *)

(** ** The store *)

Module DbFacts.
Import Db Spec.

#[local] Instance created_le_total : Total created_le.
Proof. intros a b. unfold created_le. lia. Qed.

#[local] Instance created_le_trans : Transitive created_le.
Proof. intros a b c. unfold created_le. lia. Qed.

#[local] Instance claimed_ge_total : Total claimed_ge.
Proof. intros a b. unfold claimed_ge. lia. Qed.

#[local] Instance claimed_ge_trans : Transitive claimed_ge.
Proof. intros a b c. unfold claimed_ge. lia. Qed.

Lemma insert_by_created_at_Permutation (c : Coupon.t) (l : list Coupon.t) :
  insert_by_created_at c l ≡ₚ c :: l.
Proof.
  induction l as [|x l IH]; [done|]. cbn [insert_by_created_at].
  destruct (decide _); [done|]. by rewrite IH, Permutation_swap.
Qed.

Lemma insert_by_created_at_sorted (c : Coupon.t) (l : list Coupon.t) :
  StronglySorted created_le l →
  StronglySorted created_le (insert_by_created_at c l).
Proof.
  induction 1 as [|x l Hl IH Hx]; cbn [insert_by_created_at].
  - repeat constructor.
  - destruct (decide (created_le c x)) as [Hcx|Hcx].
    + constructor; [by constructor|]. constructor; [done|].
      eapply Forall_impl; [exact Hx|]. intros y Hy.
      unfold created_le in *. lia.
    + constructor; [done|]. rewrite insert_by_created_at_Permutation.
      constructor; [|done]. unfold created_le in *. lia.
Qed.

Lemma order_by_created_at_sorted (l : list Coupon.t) :
  StronglySorted created_le (order_by_created_at l)
  ∧ order_by_created_at l ≡ₚ l.
Proof.
  unfold order_by_created_at.
  induction l as [|c l [IHs IHp]]; cbn [foldr].
  - split; [constructor|done].
  - split; [by apply insert_by_created_at_sorted|].
    rewrite insert_by_created_at_Permutation. by f_equiv.
Qed.

(** Rows that are in creation order in the table are listed in the order
    of the table, also those of equal [created_at]. *)
Lemma order_by_created_at_stable (l : list Coupon.t) :
  StronglySorted created_le l → order_by_created_at l = l.
Proof.
  induction 1 as [|c l Hl IH Hc]; [done|].
  cbn [order_by_created_at foldr]. fold (order_by_created_at l). rewrite IH.
  destruct l as [|x l']; [done|]. cbn [insert_by_created_at].
  apply Forall_cons in Hc as [Hcx _]. by rewrite decide_True.
Qed.

(** The listing query returns every row, oldest first. *)
Lemma select_coupons_sorted (s : t) :
  StronglySorted created_le (select_coupons s) ∧ select_coupons s ≡ₚ coupons s.
Proof. apply order_by_created_at_sorted. Qed.

Lemma foldr_max_spec (t : Z) (ts : list Z) :
  foldr Z.max t ts ∈ t :: ts ∧ ∀ x, x ∈ t :: ts → x ≤ foldr Z.max t ts.
Proof.
  induction ts as [|a ts [IHin IHle]]; simpl.
  - split; [left|]. intros x Hx. apply list_elem_of_singleton in Hx. lia.
  - split.
    + destruct (Z.max_spec a (foldr Z.max t ts)) as [[_ ->]|[_ ->]].
      * apply elem_of_cons in IHin as [->|Hin]; [left|do 2 right; exact Hin].
      * right; left.
    + intros x Hx.
      assert (x = a ∨ x ∈ t :: ts) as [->|Hin].
      { apply elem_of_cons in Hx as [->|Hx]; [right; left|].
        apply elem_of_cons in Hx as [->|Hx]; [by left|right; by right]. }
      * lia.
      * specialize (IHle x Hin). lia.
Qed.

Lemma latest_Some (ts : list Z) (m : Z) :
  latest ts = Some m ↔ m ∈ ts ∧ ∀ x, x ∈ ts → x ≤ m.
Proof.
  destruct ts as [|t ts]; simpl.
  - split; [done|]. intros [H _]. by apply elem_of_nil in H.
  - destruct (foldr_max_spec t ts) as [Hin Hle]. split.
    + intros [= <-]. done.
    + intros [Hm Hall]. f_equal.
      specialize (Hle m Hm). specialize (Hall _ Hin). lia.
Qed.

(** The rate-limit query answers with the newest [claimed_at] of the
    whole table, or with no row when the table is empty. *)
Lemma select_recent_claim_latest (s : t) :
  select_recent_claim s = option_list (most_recent_claim s).
Proof.
  unfold select_recent_claim, most_recent_claim.
  pose proof (StronglySorted_merge_sort claimed_ge (claims s)) as Hs.
  pose proof (merge_sort_Permutation claimed_ge (claims s)) as Hp.
  destruct (merge_sort claimed_ge (claims s)) as [|x l] eqn:E.
  - apply Permutation_nil_l in Hp. by rewrite <- Hp.
  - simpl. symmetry.
    assert (latest (Claim.claimed_at <$> claims s) = Some (Claim.claimed_at x))
      as ->; [|done].
    apply latest_Some. split.
    + apply list_elem_of_fmap. exists x. split; [done|].
      rewrite <- Hp. left.
    + intros t Ht. apply list_elem_of_fmap in Ht as (c & -> & Hc).
      rewrite <- Hp in Hc. apply elem_of_cons in Hc as [->|Hc]; [lia|].
      apply StronglySorted_inv in Hs as [_ Hall].
      rewrite Forall_forall in Hall. apply (Hall c Hc).
Qed.

(** *** The claimed flag under the update policy *)

Lemma update_row_claimed (patch : bool) (id : string) (c : Coupon.t) :
  Coupon.is_claimed c = true → update_row patch id c = c.
Proof.
  intros Hc. unfold update_row. rewrite Hc. by rewrite andb_false_r.
Qed.

Lemma update_row_id (patch : bool) (id : string) (c : Coupon.t) :
  Coupon.id (update_row patch id c) = Coupon.id c.
Proof. unfold update_row. by destruct (_ && _). Qed.

Lemma flags_only_rise_refl (d : t) : flags_only_rise d d.
Proof.
  exists (coupons d), []. split; [by rewrite app_nil_r|].
  apply Forall2_same_length_lookup. split; [done|].
  intros i a b Ha Hb. rewrite Ha in Hb. by injection Hb as ->.
Qed.

Lemma flags_only_rise_trans (d1 d2 d3 : t) :
  flags_only_rise d1 d2 → flags_only_rise d2 d3 → flags_only_rise d1 d3.
Proof.
  intros (k1 & a1 & E1 & H1) (k2 & a2 & E2 & H2).
  rewrite E1 in H2. apply Forall2_app_inv_l in H2 as (k21 & k22 & H21 & H22 & ->).
  exists k21, (k22 ++ a2). split; [by rewrite E2, app_assoc|].
  clear -H1 H21. revert k21 H21.
  induction H1 as [|a b l l' [Hid Hkeep] _ IH]; intros k21 H21.
  - by apply Forall2_nil_inv_l in H21 as ->.
  - apply Forall2_cons_inv_l in H21 as (c & k' & [Hid' Hkeep'] & Hk' & ->).
    constructor; [|by apply IH]. split; [congruence|].
    intros Ha. specialize (Hkeep Ha). subst b. by apply Hkeep'.
Qed.

Lemma update_coupon_rises (patch : bool) (id : string) (d : t) :
  flags_only_rise d (update_coupon patch id d).
Proof.
  exists (update_row patch id <$> coupons d), [].
  split; [by rewrite app_nil_r|].
  apply Forall2_fmap_r, Forall2_same_length_lookup. split; [done|].
  intros i a b Ha Hb. rewrite Ha in Hb. injection Hb as <-.
  split; [by rewrite update_row_id|apply update_row_claimed].
Qed.

Lemma insert_claim_rises (cid b ip g : string) (now : Z) (d : t) :
  flags_only_rise d (insert_claim cid b ip g now d).2.
Proof.
  unfold insert_claim. destruct (_ && _); cbn [snd]; [|apply flags_only_rise_refl].
  destruct (flags_only_rise_refl d) as (k & a & E & H).
  by exists k, a.
Qed.

Lemma handle_rises {X : Type} (req : Request X) (g : string) (now : Z) (d : t) :
  flags_only_rise d (handle req g now d).2.
Proof.
  destruct req; cbn [handle snd].
  - apply flags_only_rise_refl.
  - apply flags_only_rise_refl.
  - apply update_coupon_rises.
  - apply insert_claim_rises.
Qed.

(** *** The seed statement *)

Lemma insert_coupon_prefix (row : Coupon.t) (tbl : list Coupon.t) :
  ∃ added, insert_coupon_do_nothing row tbl = tbl ++ added.
Proof.
  unfold insert_coupon_do_nothing. destruct (coupon_conflict row tbl).
  - exists []. by rewrite app_nil_r.
  - by exists [row].
Qed.

Lemma seed_fold_prefix (rows tbl : list Coupon.t) :
  ∃ added,
    foldl (λ tbl row, insert_coupon_do_nothing row tbl) tbl rows = tbl ++ added.
Proof.
  revert tbl. induction rows as [|row rows IH]; intros tbl; cbn [foldl].
  - exists []. by rewrite app_nil_r.
  - destruct (insert_coupon_prefix row tbl) as (a1 & ->).
    destruct (IH (tbl ++ a1)) as (a2 & ->).
    exists (a1 ++ a2). by rewrite app_assoc.
Qed.

Lemma seed_rises (gen : nat → string) (now : Z) (d : t) :
  flags_only_rise d (seed gen now d).
Proof.
  unfold seed.
  destruct (seed_fold_prefix (seed_rows gen now) (coupons d)) as (added & E).
  exists (coupons d), added. split; [done|].
  destruct (flags_only_rise_refl d) as (k & a & Ek & H).
  apply Forall2_same_length_lookup. split; [done|].
  intros i x y Hx Hy. rewrite Hx in Hy. by injection Hy as ->.
Qed.

Lemma coupon_conflict_app (row : Coupon.t) (l1 l2 : list Coupon.t) :
  coupon_conflict row (l1 ++ l2)
  = coupon_conflict row l1 || coupon_conflict row l2.
Proof. unfold coupon_conflict. apply existsb_app. Qed.

Lemma coupon_conflict_code (row : Coupon.t) (tbl : list Coupon.t) :
  (∃ c, c ∈ tbl ∧ Coupon.code c = Coupon.code row) →
  coupon_conflict row tbl = true.
Proof.
  intros (c & Hin & Hcode). unfold coupon_conflict. apply existsb_exists.
  exists c. split; [by apply list_elem_of_In|].
  apply orb_true_iff. right. by apply bool_decide_eq_true.
Qed.

Lemma seed_fold_fresh (rows tbl : list Coupon.t) :
  NoDup (Coupon.id <$> rows) →
  NoDup (Coupon.code <$> rows) →
  (∀ row, row ∈ rows → coupon_conflict row tbl = false) →
  foldl (λ tbl row, insert_coupon_do_nothing row tbl) tbl rows = tbl ++ rows.
Proof.
  revert tbl. induction rows as [|r rows IH]; intros tbl Hid Hcode Hfree.
  - by rewrite app_nil_r.
  - cbn [foldl]. unfold insert_coupon_do_nothing at 2.
    rewrite Hfree by left.
    cbn [fmap list_fmap] in Hid, Hcode.
    apply NoDup_cons in Hid as [Hid1 Hid], Hcode as [Hcode1 Hcode].
    rewrite IH; [by rewrite <- app_assoc|done|done|].
    intros row Hrow. rewrite coupon_conflict_app, Hfree by by right.
    unfold coupon_conflict. cbn [existsb orb].
    rewrite !bool_decide_eq_false_2; [done| |].
    + intros E. apply Hcode1. rewrite E. apply list_elem_of_fmap. by exists row.
    + intros E. apply Hid1. rewrite E. apply list_elem_of_fmap. by exists row.
Qed.

Lemma seed_fold_present (rows tbl : list Coupon.t) :
  (∀ row, row ∈ rows → ∃ c, c ∈ tbl ∧ Coupon.code c = Coupon.code row) →
  foldl (λ tbl row, insert_coupon_do_nothing row tbl) tbl rows = tbl.
Proof.
  induction rows as [|r rows IH]; intros Hpresent; [done|].
  cbn [foldl]. unfold insert_coupon_do_nothing at 2.
  rewrite coupon_conflict_code by (apply Hpresent; left).
  apply IH. intros row Hrow. apply Hpresent. by right.
Qed.

End DbFacts.

(** ** Running the client *)

Module AppFacts.
Import App Spec.

(** On millisecond counts the test [hoursSinceLastClaim < 1] is the test
    [now - lastClaim < 3600000]. *)
Lemma Qltb_hours (now last : Z) :
  Qltb (hoursSinceLastClaim now last) 1 = true ↔ now - last < hour.
Proof.
  unfold Qltb, hoursSinceLastClaim, hour.
  rewrite negb_true_iff, <- not_true_iff_false, Qle_bool_iff.
  unfold Qle, Qdiv, Qmult, Qinv, inject_Z. simpl. lia.
Qed.

Lemma Qltb_hours_false (now last : Z) :
  Qltb (hoursSinceLastClaim now last) 1 = false ↔ hour ≤ now - last.
Proof.
  rewrite <- not_true_iff_false, Qltb_hours. lia.
Qed.

Lemma invoke_eq o c d :
  step o Invoke (mkWorld c d) = mkWorld (exec o (claimCoupon (state c)) c) d.
Proof. done. Qed.

(** Answering the request parked last resumes its function. *)
Lemma deliver_last o st ls ns ps dr ur d {X} (req : Request X) k net :
  step o (Deliver (length ps) net)
    (mkWorld (mkClient st ls ns (ps ++ [Suspended (Await req) k]) dr ur) d)
  = mkWorld (exec o (k (answer req net d).1) (mkClient st ls ns ps dr ur))
            (answer req net d).2.
Proof.
  unfold step. cbn [client suspended]. rewrite list_lookup_middle by done.
  unfold resume, unpark.
  cbn [client suspended state localStorage notices date_reads uuid_reads db].
  replace (delete (length ps) (ps ++ [Suspended (Await req) k])) with ps.
  - by destruct (answer req net d).
  - induction ps; simpl; [done|]. by f_equal.
Qed.

(** An answer for a slot where nothing is parked is dropped. *)
Lemma deliver_none o st ls ns ps dr ur d net :
  step o (Deliver (length ps) net) (mkWorld (mkClient st ls ns ps dr ur) d)
  = mkWorld (mkClient st ls ns ps dr ur) d.
Proof.
  unfold step. cbn [client suspended]. by rewrite lookup_ge_None_2.
Qed.

Lemma answer_recent_claim (net : Net) (d : Db.t) :
  answer SelectRecentClaim net d
  = (match net with
     | Failed => Err
     | Reached _ _ => Ok (option_list (most_recent_claim d))
     end, d).
Proof.
  destruct net; [done|]. simpl. by rewrite DbFacts.select_recent_claim_latest.
Qed.

Lemma answer_update (patch : bool) (id : string) (net : Net) (d : Db.t) :
  answer (UpdateCoupon patch id) net d
  = match net with
    | Failed => (Err, d)
    | Reached _ _ => (Ok (), Db.update_coupon patch id d)
    end.
Proof. by destruct net. Qed.

Lemma answer_insert (coupon_id browser_id ip : string) (net : Net) (d : Db.t) :
  answer (InsertClaim coupon_id browser_id ip) net d
  = match net with
    | Failed => (Err, d)
    | Reached gen_random_uuid now =>
        Db.insert_claim coupon_id browser_id ip gen_random_uuid now d
    end.
Proof. by destruct net. Qed.

(** Evaluation of a schedule, one label at a time. *)
Ltac open_world w :=
  destruct w as [[[cs ld cl nx tl] ls ns ps dr ur] d];
  cbn [client db state coupons loading claiming nextClaimTime timeLeft
       localStorage notices suspended date_reads uuid_reads] in *.

Ltac norm :=
  repeat (progress
    (cbn -[step Qltb hoursSinceLastClaim lookup insert answer
           Db.update_coupon Db.insert_claim Z.add Z.mul Z.sub Z.div Z.rem
           Z.leb pretty String.append];
     unfold set_state, notify, park, updateTimeLeft)).

Ltac fire :=
  first [ rewrite deliver_last
        | rewrite deliver_none
        | rewrite invoke_eq; unfold claimCoupon ];
  norm.

Ltac start := unfold attempt, run; cbn [foldl client suspended].

(** The requests in flight of an explicit client. *)
Ltac in_flight :=
  unfold requests_in_flight; cbn [suspended];
  rewrite ?omap_app; cbn [omap awaited list_omap]; rewrite <- ?app_assoc;
  cbn [app].

(** A refusal by the rate limit contradicts a cooldown that is over. *)
Ltac cooldown_clash :=
  exfalso;
  match goal with
  | Hlt : Qltb _ _ = true, Hover : cooldown_over _ _ |- _ =>
      apply Qltb_hours in Hlt; specialize (Hover _ eq_refl); lia
  end.

(** A test whose outcome is already among the hypotheses. *)
Ltac known_case :=
  match goal with
  | H : find ?f ?l = _ |- context [find ?f ?l] => rewrite H
  | H : most_recent_claim ?d = _ |- context [most_recent_claim ?d] =>
      rewrite H
  | H : Qltb ?a ?b = _ |- context [Qltb ?a ?b] => rewrite H
  | H : truthy_number ?x = _ |- context [truthy_number ?x] => rewrite H
  | H : Z.leb ?a ?b = _ |- context [Z.leb ?a ?b] => rewrite H
  | H : @lookup _ _ (gmap string string) _ ?k ?ls = _
    |- context [@lookup _ _ (gmap string string) _ ?k ?ls] => rewrite H
  | H : String.eqb ?b "" = _ |- context [String.eqb ?b ""] => rewrite H
  | H : Db.references_coupon ?a ?d && negb (Db.claim_id_taken ?g ?d) = _
    |- context [Db.insert_claim ?a _ _ ?g _ ?d] =>
      unfold Db.insert_claim; rewrite H
  end.

(** The next test the run depends on. *)
Ltac stuck_case :=
  match goal with
  | |- context [if ?b then Done Return else _] => is_var b; destruct b
  | |- context [match ?n with Failed => _ | Reached _ _ => _ end] =>
      is_var n; destruct n as [|? ?]
  | |- context [find ?f ?l] => is_var l; destruct (find f l) eqn:?
  | |- context [option_list (most_recent_claim ?d)] =>
      destruct (most_recent_claim d) eqn:?
  | |- context [Qltb ?a ?b] => destruct (Qltb a b) eqn:?
  | |- context [truthy_number ?x] => destruct (truthy_number x) eqn:?
  | |- context [Z.leb ?a ?b] => destruct (Z.leb a b) eqn:?
  | |- context [@lookup _ _ (gmap string string) _ ?k ?ls] =>
      is_var ls; destruct (ls !! k) eqn:?
  | |- context [String.eqb ?b ""] => destruct (String.eqb b "") eqn:?
  | |- context [Db.insert_claim ?a ?b ?c ?g ?n ?d] =>
      unfold Db.insert_claim;
      destruct (Db.references_coupon a d && negb (Db.claim_id_taken g d)) eqn:?
  end.

Ltac crank :=
  repeat (first [ fire
                | rewrite answer_recent_claim
                | rewrite answer_update
                | rewrite answer_insert
                | known_case
                | stuck_case ];
          norm;
          cbn [last_claim_seen insert_rejected data_of error_of] in * ).

Lemma mount_eq o c d :
  step o Mount (mkWorld c d)
  = mkWorld (exec o (Fork fetchCoupons (Fork checkLastClaim (Done Normal))) c)
            d.
Proof. done. Qed.

(** Answering the last but one, and the last of two. *)
Lemma deliver_before_one o st ls ns ps t1 dr ur d {X} (req : Request X) k net :
  step o (Deliver (length ps) net)
    (mkWorld (mkClient st ls ns ((ps ++ [Suspended (Await req) k]) ++ [t1])
                       dr ur) d)
  = mkWorld (exec o (k (answer req net d).1)
                  (mkClient st ls ns (ps ++ [t1]) dr ur))
            (answer req net d).2.
Proof.
  unfold step. cbn [client suspended].
  rewrite <- app_assoc. cbn [app]. rewrite list_lookup_middle by done.
  unfold resume, unpark.
  cbn [client suspended state localStorage notices date_reads uuid_reads db].
  replace (delete (length ps) (ps ++ [Suspended (Await req) k; t1]))
    with (ps ++ [t1]).
  - by destruct (answer req net d).
  - induction ps; simpl; [done|]. by f_equal.
Qed.

Lemma deliver_after_one o st ls ns ps t0 dr ur d {X} (req : Request X) k net :
  step o (Deliver (S (length ps)) net)
    (mkWorld (mkClient st ls ns ((ps ++ [t0]) ++ [Suspended (Await req) k])
                       dr ur) d)
  = mkWorld (exec o (k (answer req net d).1)
                  (mkClient st ls ns (ps ++ [t0]) dr ur))
            (answer req net d).2.
Proof.
  replace (S (length ps)) with (length (ps ++ [t0]))
    by (rewrite length_app; simpl; lia).
  apply deliver_last.
Qed.


(** The answer to the first of them becomes the list. *)
Lemma mount_fetches_list (o : Oracle) (w : World) (g : string) (t : Z) :
  let w1 :=
    run o [Mount; Deliver (length (suspended (client w))) (Reached g t)] w in
  coupons (state (client w1)) = Db.select_coupons (db w)
  ∧ loading (state (client w1)) = false
  ∧ db w1 = db w.
Proof.
  open_world w. unfold run. cbn [foldl].
  rewrite !mount_eq. norm. rewrite !deliver_before_one. by norm.
Qed.

(** A property of every node of the tree of [claimCoupon], by walking the
    tree through every result its effects can have. *)
Ltac walk_tree :=
  cbn; unfold updateTimeLeft;
  repeat first
    [ done
    | split
    | intros [[|? ?]|]
    | intros [?|]
    | intros []
    | intros ?
    | progress cbn
    | match goal with
      | |- context [if ?b then _ else _] => destruct b
      end ].

(** *** The list stays in creation order *)

Lemma answer_is_in_order {X : Type} (req : Request X) (net : Net) (d : Db.t) :
  answer_in_order req (answer req net d).1.
Proof.
  destruct net as [|g t]; [by destruct req|].
  destruct req; cbn; try done.
  apply DbFacts.select_coupons_sorted.
Qed.

Lemma exec_keeps_order (o : Oracle) (p : Prog) (c : Client) :
  keeps_order p → ordered_client c → ordered_client (exec o p c).
Proof.
  revert c. induction p as [cpl|X e k IH|child IHchild k IHk]; intros c Hp Hc.
  - done.
  - destruct Hp as [He Hk]. cbn [exec].
    destruct (sync o e c) as [[x c']|] eqn:Hsync.
    + apply IH.
      * apply Hk. by destruct e.
      * destruct Hc as [Hl Ht].
        destruct e; cbn in Hsync; simplify_eq; by split.
    + destruct Hc as [Hl Ht]. split; [done|]. cbn [park suspended].
      apply Forall_app. split; [done|]. by repeat constructor.
  - destruct Hp as [Hchild Hk]. cbn [exec]. by apply IHk, IHchild.
Qed.

Lemma claimCoupon_keeps_order (r : State) : keeps_order (claimCoupon r).
Proof.
  unfold claimCoupon. destruct (claiming r); [done|].
  destruct (find _ (coupons r)) as [c|]; [|by cbn].
  walk_tree.
Qed.

Lemma mount_keeps_order :
  keeps_order (Fork fetchCoupons (Fork checkLastClaim (Done Normal))).
Proof.
  cbn. repeat split; try done.
  - intros [l|] Hl; by cbn.
  - intros [[|t ts]|] _; by cbn.
Qed.

Lemma tick_keeps_order (r : State) : keeps_order (call (updateTimeLeft r)).
Proof.
  unfold updateTimeLeft. destruct (negb _); [done|]. cbn. split; [done|].
  intros now _. destruct (_ <=? _); by cbn.
Qed.

Lemma step_keeps_order (o : Oracle) (l : Label) (w : World) :
  ordered_client (client w) → ordered_client (client (step o l w)).
Proof.
  intros Hc. destruct l as [| | | |i net|X req net]; unfold step; cbn [client].
  - by apply exec_keeps_order; [apply mount_keeps_order|].
  - by apply exec_keeps_order; [apply claimCoupon_keeps_order|].
  - destruct (button_disabled _); [done|].
    by apply exec_keeps_order; [apply claimCoupon_keeps_order|].
  - destruct (truthy_number _); [|done].
    by apply exec_keeps_order; [apply tick_keeps_order|].
  - destruct (suspended (client w) !! i) as [[X e k]|] eqn:Hi; [|done].
    unfold resume. destruct e; try done.
    pose proof (answer_is_in_order req net (db w)) as Hanswer.
    destruct (answer req net (db w)) as [resp d']. cbn [client fst] in *.
    destruct Hc as [Hl Ht].
    apply exec_keeps_order.
    + rewrite Forall_forall in Ht.
      apply (Ht (Suspended (Await req) k)); [|done].
      by eapply list_elem_of_lookup_2.
    + split; [done|]. cbn [unpark suspended].
      rewrite Forall_forall in Ht |- *. intros t Hin. apply Ht.
      by eapply list_elem_of_delete_inv.
  - done.
Qed.

Lemma run_keeps_order (o : Oracle) (ls : list Label) (w : World) :
  ordered_client (client w) → ordered_client (client (run o ls w)).
Proof.
  unfold run. revert w. induction ls as [|l ls IH]; intros w Hw; [done|].
  cbn [foldl]. by apply IH, step_keeps_order.
Qed.

Lemma initial_client_ordered : ordered_client initial_client.
Proof. split; constructor. Qed.

(** *** The rate-limit test of a claim attempt *)

Section RateLimit.
Variable o : Oracle.
Variables (w : World) (c : Coupon.t) (n1 : Net) (T : Z).

Let i : nat := length (suspended (client w)).
Let now : Z := date_now o (date_reads (client w)).
Let w1 : World := run o [Invoke; Deliver i n1] w.

Hypothesis not_in_flight : claiming (state (client w)) = false.
Hypothesis available :
  find (λ c, negb (Coupon.is_claimed c)) (coupons (state (client w))) = Some c.
Hypothesis seen : last_claim_seen n1 (db w) = Some T.

(** Under one hour since [T]: nothing is sent, nothing is written, the
    visitor is told to wait and the attempt is over.  The deadline becomes
    [T] plus one hour when the render the handler was created in had no
    deadline, or one that is not yet over. *)
Lemma cooldown_refuses :
  now - T < hour →
  db w1 = db w
  ∧ suspended (client w1) = suspended (client w)
  ∧ localStorage (client w1) = localStorage (client w)
  ∧ notices (client w1)
    = notices (client w)
      ++ [ToastErrorShown "Please wait 1 hour between claims"]
  ∧ claiming (state (client w1)) = false
  ∧ coupons (state (client w1)) = coupons (state (client w))
  ∧ (truthy_number (nextClaimTime (state (client w))) = false →
     nextClaimTime (state (client w1)) = Some (T + hour)
     ∧ timeLeft (state (client w1)) = timeLeft (state (client w)))
  ∧ (∀ deadline,
       nextClaimTime (state (client w)) = Some deadline →
       0 < deadline - date_now o (S (date_reads (client w))) →
       nextClaimTime (state (client w1)) = Some (T + hour)).
Proof.
  subst i now w1. revert not_in_flight available seen.
  open_world w. intros -> Hfind Hseen Hlt.
  apply Qltb_hours in Hlt. start. fire. rewrite Hfind. norm. fire.
  rewrite answer_recent_claim. destruct n1 as [|g t]; [done|].
  cbn [last_claim_seen] in Hseen. rewrite Hseen. norm. rewrite Hlt. norm.
  destruct nx as [deadline|]; cbn [truthy_number default].
  - destruct (deadline =? 0) eqn:Hz; norm.
    + repeat split; done.
    + destruct (deadline - date_now o (S dr) <=? 0) eqn:Hle; norm.
      * repeat split; try done. intros ? [= <-] ?. lia.
      * repeat split; done.
  - norm. repeat split; done.
Qed.

(** One hour or more since [T]: the attempt goes on to the update of the
    chosen coupon, and the countdown and the notices are left alone. *)
Lemma cooldown_permits :
  hour ≤ now - T →
  db w1 = db w
  ∧ requests_in_flight (client w1)
    = requests_in_flight (client w)
      ++ [any (UpdateCoupon true (Coupon.id c))]
  ∧ notices (client w1) = notices (client w)
  ∧ nextClaimTime (state (client w1)) = nextClaimTime (state (client w))
  ∧ claiming (state (client w1)) = true.
Proof.
  subst i now w1. revert not_in_flight available seen.
  open_world w. intros -> Hfind Hseen Hge.
  apply Qltb_hours_false in Hge. start. fire. rewrite Hfind. norm. fire.
  rewrite answer_recent_claim. destruct n1 as [|g t]; [done|].
  cbn [last_claim_seen] in Hseen. rewrite Hseen. norm. rewrite Hge. norm.
  destruct (ls !! "browser_id") as [b|] eqn:Hb; norm;
    [destruct (String.eqb b "") eqn:Hbe; norm|];
    repeat split; try done; by in_flight.
Qed.

End RateLimit.

End AppFacts.

(** ** The claims *)

Module Claims.
Import App Spec AppFacts.

(** *** Availability (C5) *)

Lemma find_unclaimed_None (l : list Coupon.t) :
  Forall (λ c, Coupon.is_claimed c = true) l →
  find (λ c, negb (Coupon.is_claimed c)) l = None.
Proof.
  induction 1 as [|c l Hc _ IH]; [done|]. simpl. by rewrite Hc.
Qed.

(** C5.  In a state whose fetched list holds claimed coupons only, a call
    of [claimCoupon] sends nothing to the store and leaves the store as it
    is; unless a claim is already in flight, all it does is show the
    notification "No coupons available".  A click on the enabled button
    is such a call. *)
Theorem C5_no_coupons_available (o : Oracle) (w : World) :
  Forall (λ c, Coupon.is_claimed c = true) (coupons (state (client w))) →
  db (step o Invoke w) = db w
  ∧ suspended (client (step o Invoke w)) = suspended (client w)
  ∧ (claiming (state (client w)) = false →
     step o Invoke w
     = mkWorld (notify (ToastErrorShown "No coupons available") (client w))
               (db w))
  ∧ (button_disabled (state (client w)) = false →
     step o Click w = step o Invoke w).
Proof.
  intros Hall. apply find_unclaimed_None in Hall.
  open_world w. repeat split.
  - fire. destruct cl; norm; [done|]. by rewrite Hall.
  - intros Hcl. subst cl. fire. by rewrite Hall.
  - intros Hbtn. unfold step. cbn [client state]. by rewrite Hbtn.
Qed.

Lemma C5_no_coupons_available_witness :
  let o := Scenario.clock_from (401 * Scenario.minute) in
  let w := Scenario.exhausted o in
  db (step o Invoke w) = db w
  ∧ suspended (client (step o Invoke w)) = suspended (client w)
  ∧ (claiming (state (client w)) = false →
     step o Invoke w
     = mkWorld (notify (ToastErrorShown "No coupons available") (client w))
               (db w))
  ∧ (button_disabled (state (client w)) = false →
     step o Click w = step o Invoke w).
Proof.
  intros o w. refine (C5_no_coupons_available o w _).
  refine (bool_decide_unpack _ _). vm_compute. exact I.
Defined.

(** *** The in-flight guard (C4) *)





(** *** The cooldown (C1, C7, C10) *)

(** C1, at the input where the code departs from it.  Two hours after an
    old claim the page is opened, which sets a deadline that is already
    over; before the interval ticks another visitor claims; 400 ms later
    the button, which is enabled, is clicked.  The rate-limit query brings
    back that claim's timestamp [T], under one hour has passed, the
    attempt is refused and nothing is written: so far as the claim says.
    But [updateTimeLeft], called right after [setNextClaimTime], reads the
    deadline of the render it was created in, finds it over and clears
    the countdown: no countdown to [T] plus one hour is left set. *)
Theorem C1_stale_deadline_clears_countdown :
  let o := Scenario.clock_from (120 * Scenario.minute + 500) in
  let w := Scenario.stale_deadline o in
  let T := 120 * Scenario.minute + 100 in
  let n1 := Reached "" (120 * Scenario.minute + 500) in
  let w1 := run o [Click; Deliver (length (suspended (client w))) n1] w in
  button_disabled (state (client w)) = false
  ∧ nextClaimTime (state (client w)) = Some (61 * Scenario.minute)
  ∧ last_claim_seen n1 (db w) = Some T
  ∧ date_now o (date_reads (client w)) - T = 400
  ∧ db w1 = db w
  ∧ requests_in_flight (client w1) = []
  ∧ notices (client w1)
    = [ToastErrorShown "Please wait 1 hour between claims"]
  ∧ nextClaimTime (state (client w1)) = None
  ∧ timeLeft (state (client w1)) = None.
Proof. vm_compute. repeat split. Qed.

(** The two instants of the specification, on a page that saw another
    visitor claim at minute 6: the attempt at 59 minutes after that claim
    is refused and sets the deadline, the attempt at 61 minutes goes on to
    the update. *)
Example refused_at_59_minutes :
  let T := 6 * Scenario.minute in
  let o := Scenario.clock_from (T + 59 * Scenario.minute) in
  let w := Scenario.overtaken o in
  let w1 := run o [Click; Deliver (length (suspended (client w)))
                                  (Reached "" (T + 59 * Scenario.minute))] w in
  db w1 = db w
  ∧ requests_in_flight (client w1) = []
  ∧ nextClaimTime (state (client w1)) = Some (T + hour).
Proof. vm_compute. repeat split. Qed.

Example permitted_at_61_minutes :
  let T := 6 * Scenario.minute in
  let o := Scenario.clock_from (T + 61 * Scenario.minute) in
  let w := Scenario.overtaken o in
  let w1 := run o [Click; Deliver (length (suspended (client w)))
                                  (Reached "" (T + 61 * Scenario.minute))] w in
  requests_in_flight (client w1) = [any (UpdateCoupon true "coupon-0")]
  ∧ notices (client w1) = [].
Proof. vm_compute. repeat split. Qed.

(** C10.  When the rate-limit query of a claim attempt fails, or brings
    back no row, the attempt shows nothing, leaves the countdown alone and
    goes on to the update of the chosen coupon, and after the update to the
    insert of the claim record, whatever the claims table holds. *)
Theorem C10_unanswered_cooldown_query_is_skipped
    (o : Oracle) (w : World) (c : Coupon.t) (n1 : Net) :
  claiming (state (client w)) = false →
  find (λ c, negb (Coupon.is_claimed c)) (coupons (state (client w))) = Some c →
  last_claim_seen n1 (db w) = None →
  let i := length (suspended (client w)) in
  let w1 := run o [Invoke; Deliver i n1] w in
  db w1 = db w
  ∧ notices (client w1) = notices (client w)
  ∧ nextClaimTime (state (client w1)) = nextClaimTime (state (client w))
  ∧ timeLeft (state (client w1)) = timeLeft (state (client w))
  ∧ requests_in_flight (client w1)
    = requests_in_flight (client w) ++ [any (UpdateCoupon true (Coupon.id c))]
  ∧ ∀ g2 t2, ∃ b,
      requests_in_flight (client (step o (Deliver i (Reached g2 t2)) w1))
      = requests_in_flight (client w)
        ++ [any (InsertClaim (Coupon.id c) b "client-ip")].
Proof.
  intros Hfl Hfind Hseen i w1. subst i w1. open_world w. subst cl.
  start. fire. rewrite Hfind. norm. fire. rewrite answer_recent_claim.
  assert (data_of match n1 with
                  | Failed => Err
                  | Reached _ _ => Ok (option_list (most_recent_claim d))
                  end ≫= head = None) as Hnone.
  { destruct n1; [done|]. cbn [last_claim_seen] in Hseen. by rewrite Hseen. }
  destruct (data_of _) as [[|t ts]|]; [|done|]; norm.
  all: destruct (ls !! "browser_id") as [b|] eqn:Hb; norm;
    [destruct (String.eqb b "") eqn:Hbe; norm|].
  all: repeat split; try done; try by in_flight.
  all: intros g2 t2; eexists; fire; rewrite answer_update; norm; by in_flight.
Qed.

(** The query fails while the store holds a claim that is five minutes
    old: the attempt goes on all the same. *)
Lemma C10_unanswered_cooldown_query_is_skipped_witness :
  let o := Scenario.clock_from (11 * Scenario.minute) in
  let w := Scenario.overtaken o in
  let c := Coupon.mk "coupon-0" "SAVE10" "10% off your next purchase" false 0 in
  let i := length (suspended (client w)) in
  let w1 := run o [Invoke; Deliver i Failed] w in
  db w1 = db w
  ∧ notices (client w1) = notices (client w)
  ∧ nextClaimTime (state (client w1)) = nextClaimTime (state (client w))
  ∧ timeLeft (state (client w1)) = timeLeft (state (client w))
  ∧ requests_in_flight (client w1)
    = requests_in_flight (client w) ++ [any (UpdateCoupon true (Coupon.id c))]
  ∧ ∀ g2 t2, ∃ b,
      requests_in_flight (client (step o (Deliver i (Reached g2 t2)) w1))
      = requests_in_flight (client w)
        ++ [any (InsertClaim (Coupon.id c) b "client-ip")].
Proof.
  intros o w c.
  refine (C10_unanswered_cooldown_query_is_skipped o w c Failed _ _ _);
    vm_compute; reflexivity.
Defined.




(** *** The two writes (C2) *)

(** C2.  When the update of the chosen coupon succeeds and the insert of
    the claim record does not go through, the attempt ends with every
    store row of that coupon claimed and the claims table as it was, with
    nothing sent after the failed insert and nothing left in flight; the
    visitor gets the notification "Failed to claim coupon" and the console
    the error, and the attempt is no longer in flight. *)
Theorem C2_insert_failure_leaves_coupon_claimed
    (o : Oracle) (w : World) (c : Coupon.t) (n1 : Net)
    (g2 : string) (t2 : Z) (n3 : Net) :
  claiming (state (client w)) = false →
  find (λ c, negb (Coupon.is_claimed c)) (coupons (state (client w))) = Some c →
  cooldown_over (last_claim_seen n1 (db w))
                (date_now o (date_reads (client w))) →
  insert_rejected (Coupon.id c) n3
                  (Db.update_coupon true (Coupon.id c) (db w)) →
  let w' := attempt o n1 (Reached g2 t2) n3 w in
  Db.coupons (db w') = Db.update_row true (Coupon.id c) <$> Db.coupons (db w)
  ∧ Forall (λ row, Coupon.id row = Coupon.id c → Coupon.is_claimed row = true)
           (Db.coupons (db w'))
  ∧ Db.claims (db w') = Db.claims (db w)
  ∧ suspended (client w') = suspended (client w)
  ∧ notices (client w')
    = notices (client w)
      ++ [ToastErrorShown "Failed to claim coupon"; ConsoleErrorLogged]
  ∧ claiming (state (client w')) = false.
Proof.
  intros Hfl Hfind Hcool Hrej w'. subst w'.
  assert (Forall (λ row, Coupon.id row = Coupon.id c
                         → Coupon.is_claimed row = true)
                 (Db.update_row true (Coupon.id c) <$> Db.coupons (db w)))
    as Hrows.
  { apply Forall_fmap, Forall_forall. intros row _.
    unfold Db.update_row. cbn [compose].
    destruct (bool_decide (Coupon.id row = Coupon.id c)) eqn:Hid;
      destruct (Coupon.is_claimed row) eqn:Hcl; cbn; try done.
    intros Heq. by apply bool_decide_eq_false in Hid. }
  open_world w. subst cl.
  start. fire. rewrite Hfind. norm. crank.
  all: try cooldown_clash.
  all: try (exfalso; cbn [insert_rejected] in Hrej; congruence).
  all: cbn [db client Db.coupons Db.claims Db.update_coupon].
  all: repeat split; try done; by rewrite <- app_assoc.
Qed.

Lemma C2_insert_failure_leaves_coupon_claimed_witness :
  let o := Scenario.clock_from (2 * Scenario.minute) in
  let w := Scenario.quiet o in
  let c := Coupon.mk "coupon-0" "SAVE10" "10% off your next purchase" false 0 in
  let w' := attempt o (Reached "" (2 * Scenario.minute))
                      (Reached "" (2 * Scenario.minute)) Failed w in
  Db.coupons (db w') = Db.update_row true (Coupon.id c) <$> Db.coupons (db w)
  ∧ Forall (λ row, Coupon.id row = Coupon.id c → Coupon.is_claimed row = true)
           (Db.coupons (db w'))
  ∧ Db.claims (db w') = Db.claims (db w)
  ∧ suspended (client w') = suspended (client w)
  ∧ notices (client w')
    = notices (client w)
      ++ [ToastErrorShown "Failed to claim coupon"; ConsoleErrorLogged]
  ∧ claiming (state (client w')) = false.
Proof.
  intros o w c.
  refine (C2_insert_failure_leaves_coupon_claimed o w c _ _ _ Failed _ _ _ _).
  - vm_compute; reflexivity.
  - vm_compute; reflexivity.
  - intros T HT. vm_compute in HT. discriminate.
  - exact I.
Defined.

(** *** The browser identifier (C8) *)

(** C8 as stated fails.  A visitor with no stored identifier makes their
    first claim attempt ten minutes after another visitor's claim: the
    attempt is refused by the cooldown before the identifier step, the
    random source is not read and nothing is stored. *)
Lemma C8_refused_first_attempt_stores_nothing :
  let o := Scenario.clock_from (16 * Scenario.minute) in
  let w := Scenario.overtaken o in
  let n := Reached "" (16 * Scenario.minute) in
  let w1 := run o [Click; Deliver (length (suspended (client w))) n] w in
  (localStorage (client w) !! "browser_id" = None
   ∧ notices (client w) = []
   ∧ button_disabled (state (client w)) = false)
  ∧ notices (client w1)
    = [ToastErrorShown "Please wait 1 hour between claims"]
  ∧ requests_in_flight (client w1) = []
  ∧ uuid_reads (client w1) = 0%nat
  ∧ localStorage (client w1) !! "browser_id" = None.
Proof. vm_compute. repeat split. Qed.

(** C8, amended.  Over one claim attempt followed to its end:
    - when the attempt is past the in-flight guard, the availability
      check and the cooldown, and finds no identifier stored (or an empty
      one), the random source is read once and its value is stored under
      ["browser_id"];
    - an attempt that is stopped by the in-flight guard, by the
      availability check or by the cooldown does not read the random
      source and leaves [localStorage] and the store as they were, also
      when no identifier is stored yet;
    - a stored, non-empty identifier is left as it is and the random
      source is not read, whatever the attempt does;
    - the attempt adds at most one claim record, and that record carries
      the identifier that is stored after the attempt. *)
Theorem C8_browser_identifier (o : Oracle) (w : World) (n1 n2 n3 : Net) :
  let w' := attempt o n1 n2 n3 w in
  let stored := localStorage (client w) !! "browser_id" in
  (∀ c,
     claiming (state (client w)) = false →
     find (λ c, negb (Coupon.is_claimed c)) (coupons (state (client w)))
     = Some c →
     cooldown_over (last_claim_seen n1 (db w))
                   (date_now o (date_reads (client w))) →
     stored = None ∨ stored = Some "" →
     localStorage (client w')
     = <["browser_id" := random_uuid o (uuid_reads (client w))]>
         (localStorage (client w))
     ∧ uuid_reads (client w') = S (uuid_reads (client w)))
  ∧ (claiming (state (client w)) = true
     ∨ find (λ c, negb (Coupon.is_claimed c)) (coupons (state (client w)))
       = None
     ∨ (∃ T, last_claim_seen n1 (db w) = Some T
             ∧ date_now o (date_reads (client w)) - T < hour) →
     localStorage (client w') = localStorage (client w)
     ∧ uuid_reads (client w') = uuid_reads (client w)
     ∧ db w' = db w)
  ∧ (∀ b,
       stored = Some b → b ≠ "" →
       localStorage (client w') = localStorage (client w)
       ∧ uuid_reads (client w') = uuid_reads (client w))
  ∧ (Db.claims (db w') = Db.claims (db w)
     ∨ ∃ g cid t b,
         Db.claims (db w')
         = Db.claims (db w) ++ [Claim.mk g cid "client-ip" b t]
         ∧ localStorage (client w') !! "browser_id" = Some b).
Proof.
  intros w' stored. subst w' stored. open_world w. split; [|split; [|split]].
  - intros c -> Hfind Hcool Hstored. start. fire. rewrite Hfind. norm. crank.
    all: try cooldown_clash.
    all: try done.
    all: exfalso; destruct Hstored as [?|Hempty]; try congruence.
    all: injection Hempty as ->; discriminate.
  - intros [->|[Hnone|(T & Hseen & Hlt)]].
    + start. crank. done.
    + start. crank. all: done.
    + apply Qltb_hours in Hlt. start. crank.
      all: cbn [last_claim_seen] in Hseen; simplify_eq.
      all: try done.
      all: congruence.
  - intros b Hb Hne.
    assert (String.eqb b "" = false) as Hbe by by apply String.eqb_neq.
    start. crank.
    all: done.
  - start. crank.
    all: cbn [db client Db.claims Db.update_coupon localStorage].
    all: try (by left).
    all: right; do 4 eexists; split; [reflexivity|].
    all: try by rewrite lookup_insert_eq.
    all: done.
Qed.

(** A first attempt on a quiet store stores the first random identifier
    and the record it inserts carries it. *)
Lemma C8_browser_identifier_witness :
  let o := Scenario.clock_from (2 * Scenario.minute) in
  let w := Scenario.quiet o in
  let w' := attempt o (Reached "" (2 * Scenario.minute))
                      (Reached "" (2 * Scenario.minute))
                      (Reached "claim-1" (2 * Scenario.minute)) w in
  localStorage (client w') = <["browser_id" := "browser-0"]> ∅
  ∧ (Claim.browser_id <$> Db.claims (db w')) = ["browser-0"].
Proof.
  intros o w w'. split.
  - refine (proj1 (proj1 (C8_browser_identifier o w _ _ _)
                     (Coupon.mk "coupon-0" "SAVE10"
                                "10% off your next purchase" false 0)
                     _ _ _ _)).
    + vm_compute; reflexivity.
    + vm_compute; reflexivity.
    + intros T HT. vm_compute in HT. discriminate.
    + left. vm_compute; reflexivity.
  - vm_compute; reflexivity.
Defined.

(** *** The choice of the coupon (C3) *)

Lemma find_first_unclaimed (l : list Coupon.t) (c : Coupon.t) :
  find (λ c, negb (Coupon.is_claimed c)) l = Some c → first_unclaimed l c.
Proof.
  induction l as [|a l IH]; [done|]. cbn [find].
  destruct (Coupon.is_claimed a) eqn:Ha; cbn [negb].
  - intros Hf. destruct (IH Hf) as (l1 & l2 & -> & Hl1 & Hc).
    exists (a :: l1), l2. repeat split; [|done]. by constructor.
  - intros [= <-]. exists [], l. repeat split; [|done]. constructor.
Qed.

Lemma first_unclaimed_earliest (l : list Coupon.t) (c : Coupon.t) :
  in_creation_order l →
  first_unclaimed l c →
  ∀ c', c' ∈ l → Coupon.is_claimed c' = false →
        Coupon.created_at c ≤ Coupon.created_at c'.
Proof.
  intros Hs (l1 & l2 & -> & Hl1 & Hc) c' Hin Hc'.
  apply elem_of_app in Hin as [Hin|Hin].
  - rewrite Forall_forall in Hl1. specialize (Hl1 _ Hin). congruence.
  - apply StronglySorted_app_1_r in Hs.
    apply elem_of_cons in Hin as [->|Hin]; [lia|].
    apply StronglySorted_inv in Hs as [_ Hall].
    rewrite Forall_forall in Hall. apply (Hall _ Hin).
Qed.

(** C3.  The list is what the listing query answered, and that answer
    holds every row of the table in ascending order of creation time, rows
    that are in that order in the table keeping their places.  A claim
    operation never sends the listing query on its own line of execution,
    and each write it sends names the first coupon of the render's list
    whose claimed flag is false.  An attempt that is past the in-flight
    guard and the cooldown, on a list with an unclaimed coupon, does choose
    that first unclaimed coupon, whatever the store holds by then: it sends
    the rate-limit query, then the update of that coupon, then (the update
    answered) the insert of a record for that coupon, and the list is not
    touched on the way.  In every state a tab can reach from its first
    render, over any store and any schedule, the list is in ascending
    order of creation time, so that no unclaimed coupon of the list was
    created before the chosen one. *)
Theorem C3_first_unclaimed_of_fetched_list :
  (∀ o w g t,
     let i := length (suspended (client w)) in
     coupons (state (client (run o [Mount; Deliver i (Reached g t)] w)))
     = Db.select_coupons (db w))
  ∧ (∀ d, in_creation_order (Db.select_coupons d)
          ∧ Db.select_coupons d ≡ₚ Db.coupons d
          ∧ (in_creation_order (Db.coupons d) →
             Db.select_coupons d = Db.coupons d))
  ∧ (∀ r,
       every_request true
         (λ X (req : Request X),
            match req with
            | SelectCoupons => False
            | SelectRecentClaim => True
            | UpdateCoupon _ id | InsertClaim id _ _ =>
                ∃ c, find (λ c, negb (Coupon.is_claimed c)) (coupons r)
                     = Some c
                     ∧ first_unclaimed (coupons r) c
                     ∧ id = Coupon.id c
            end)
         (claimCoupon r))
  ∧ (∀ o w c n1,
       claiming (state (client w)) = false →
       find (λ c, negb (Coupon.is_claimed c)) (coupons (state (client w)))
       = Some c →
       cooldown_over (last_claim_seen n1 (db w))
                     (date_now o (date_reads (client w))) →
       let i := length (suspended (client w)) in
       let w1 := run o [Invoke; Deliver i n1] w in
       first_unclaimed (coupons (state (client w))) c
       ∧ requests_in_flight (client (step o Invoke w))
         = requests_in_flight (client w) ++ [any SelectRecentClaim]
       ∧ requests_in_flight (client w1)
         = requests_in_flight (client w)
           ++ [any (UpdateCoupon true (Coupon.id c))]
       ∧ db w1 = db w
       ∧ ∀ g2 t2,
           let w2 := step o (Deliver i (Reached g2 t2)) w1 in
           db w2 = Db.update_coupon true (Coupon.id c) (db w)
           ∧ coupons (state (client w2)) = coupons (state (client w))
           ∧ ∃ b, requests_in_flight (client w2)
                  = requests_in_flight (client w)
                    ++ [any (InsertClaim (Coupon.id c) b "client-ip")])
  ∧ (∀ o ls d,
       let l := coupons (state (client (run o ls (mkWorld initial_client d)))) in
       in_creation_order l
       ∧ ∀ c, find (λ c, negb (Coupon.is_claimed c)) l = Some c →
              ∀ c', c' ∈ l → Coupon.is_claimed c' = false →
                    Coupon.created_at c ≤ Coupon.created_at c').
Proof.
  split; [|split; [|split; [|split]]].
  - intros o w g t i. by apply mount_fetches_list.
  - intros d. destruct (DbFacts.select_coupons_sorted d) as [Hs Hp].
    repeat split; [done|done|]. apply DbFacts.order_by_created_at_stable.
  - intros r. unfold claimCoupon. destruct (claiming r); [done|].
    destruct (find _ (coupons r)) as [c|] eqn:Hfind; [|by cbn].
    pose proof (find_first_unclaimed _ _ Hfind) as Hfirst.
    assert (∃ c0, Some c = Some c0 ∧ first_unclaimed (coupons r) c0
                  ∧ Coupon.id c = Coupon.id c0) as Hc by by exists c.
    walk_tree.
  - intros o w c n1 Hfl Hfind Hcool i w1. subst i w1.
    split; [by apply find_first_unclaimed|].
    open_world w. subst cl. start. fire. rewrite Hfind. norm.
    split; [by in_flight|]. crank.
    all: try cooldown_clash.
    all: split; [by in_flight|]; split; [done|].
    all: intros g2 t2; fire; rewrite answer_update; norm.
    all: split; [done|]; split; [done|]; eexists; by in_flight.
  - intros o ls d l.
    destruct (run_keeps_order o ls (mkWorld initial_client d)
                initial_client_ordered) as [Hl _].
    split; [done|]. intros c Hfind.
    by apply first_unclaimed_earliest, find_first_unclaimed.
Qed.

(** Two minutes after the seed, on the page opened on the seeded store:
    the list is the table in the order of the seed statement, the first
    unclaimed coupon is SAVE10, and the attempt sends the update of that
    coupon. *)
Lemma C3_first_unclaimed_of_fetched_list_witness :
  let o := Scenario.clock_from (2 * Scenario.minute) in
  let w := Scenario.quiet o in
  let c := Coupon.mk "coupon-0" "SAVE10" "10% off your next purchase"
                     false 0 in
  let w1 := run o [Invoke; Deliver (length (suspended (client w)))
                                   (Reached "" 0)] w in
  Coupon.code <$> coupons (state (client w))
  = ["SAVE10"; "FREESHIP"; "SPRING25"; "WELCOME15"; "FLASH50"]
  ∧ first_unclaimed (coupons (state (client w))) c
  ∧ requests_in_flight (client w1) = [any (UpdateCoupon true "coupon-0")].
Proof.
  intros o w c w1.
  assert (claiming (state (client w)) = false) as Hfl
    by (vm_compute; reflexivity).
  assert (find (λ c, negb (Coupon.is_claimed c)) (coupons (state (client w)))
          = Some c) as Hfind by (vm_compute; reflexivity).
  assert (cooldown_over (last_claim_seen (Reached "" 0) (db w))
                        (date_now o (date_reads (client w)))) as Hcool
    by (intros T HT; vm_compute in HT; discriminate).
  destruct (proj1 (proj2 (proj2 (proj2 C3_first_unclaimed_of_fetched_list)))
              o w c (Reached "" 0) Hfl Hfind Hcool)
    as (Hfirst & _ & Hupdate & _).
  split; [vm_compute; reflexivity|]. split; [exact Hfirst|exact Hupdate].
Defined.

(** *** The claimed flag (C6) *)

Lemma step_rises (o : Oracle) (l : Label) (w : World) :
  flags_only_rise (db w) (db (step o l w)).
Proof.
  assert (∀ X (req : Request X) net d, flags_only_rise d (answer req net d).2)
    as Hanswer.
  { intros X req [|g t] d; [apply DbFacts.flags_only_rise_refl|].
    apply DbFacts.handle_rises. }
  destruct l as [| | | |i net|X req net]; unfold step.
  - apply DbFacts.flags_only_rise_refl.
  - apply DbFacts.flags_only_rise_refl.
  - destruct (button_disabled _); apply DbFacts.flags_only_rise_refl.
  - destruct (truthy_number _); apply DbFacts.flags_only_rise_refl.
  - destruct (suspended (client w) !! i) as [[X e k]|];
      [|apply DbFacts.flags_only_rise_refl].
    unfold resume. destruct e; try apply DbFacts.flags_only_rise_refl.
    specialize (Hanswer _ req net (db w)).
    by destruct (answer req net (db w)).
  - apply Hanswer.
Qed.

Lemma run_rises (o : Oracle) (ls : list Label) (w : World) :
  flags_only_rise (db w) (db (run o ls w)).
Proof.
  unfold run. revert w. induction ls as [|l ls IH]; intros w; cbn [foldl].
  - apply DbFacts.flags_only_rise_refl.
  - eapply DbFacts.flags_only_rise_trans; [apply (step_rises o l)|apply IH].
Qed.

(** C6.  Every coupon update a function of the client can send carries
    the patch [is_claimed: true], and only [claimCoupon] sends any; under
    the update policy a row whose flag is true is left untouched whatever
    the patch; hence across every request the store serves, across the
    seed statement and across every run of a tab and of other visitors'
    requests, each coupon row stays in place under its identifier and a
    claimed row stays claimed. *)
Theorem C6_claimed_flag_only_rises :
  (∀ r, every_request false sets_flag_true (claimCoupon r))
  ∧ every_request false no_coupon_write fetchCoupons
  ∧ every_request false no_coupon_write checkLastClaim
  ∧ (∀ r, every_request false no_coupon_write (updateTimeLeft r))
  ∧ (∀ patch id c,
       Coupon.is_claimed c = true → Db.update_row patch id c = c)
  ∧ (∀ X (req : Request X) net d, flags_only_rise d (answer req net d).2)
  ∧ (∀ gen now d, flags_only_rise d (Db.seed gen now d))
  ∧ (∀ o ls w, flags_only_rise (db w) (db (run o ls w))).
Proof.
  repeat split.
  - intros r. unfold claimCoupon. destruct (claiming r); [done|].
    destruct (find _ (coupons r)) as [c|]; [|by cbn].
    walk_tree.
  - intros [data|]; by cbn.
  - intros [[|t ts]|]; by cbn.
  - intros r. unfold updateTimeLeft.
    destruct (negb _); [done|]. cbn. split; [done|]. intros now.
    destruct (_ <=? _); by cbn.
  - apply DbFacts.update_row_claimed.
  - intros X req [|g t] d; [apply DbFacts.flags_only_rise_refl|].
    apply DbFacts.handle_rises.
  - apply DbFacts.seed_rises.
  - apply run_rises.
Qed.

(** *** The seed (C9) *)

Lemma seed_rows_codes (gen : nat → string) (now : Z) :
  Coupon.code <$> Db.seed_rows gen now = Db.sample_coupons.*1.
Proof. done. Qed.

Lemma sample_codes_distinct : NoDup (Db.sample_coupons.*1).
Proof. refine (bool_decide_unpack _ _). vm_compute. exact I. Qed.

(** C9.  The seed statement proposes the five fixed codes with their
    descriptions, unclaimed.  On a table none of them conflicts with (and
    when the five generated identifiers differ) it appends exactly these
    five rows; on a table that already holds the five codes it changes
    nothing; so running it a second time, whatever the identifiers and
    the time of the second run, leaves the store as the first run left
    it. *)
Theorem C9_seed_is_idempotent (gen gen' : nat → string) (now now' : Z)
    (d : Db.t) :
  (λ c, (Coupon.code c, Coupon.description c)) <$> Db.seed_rows gen now
  = [ ("SAVE10", "10% off your next purchase");
      ("FREESHIP", "Free shipping on orders over $50");
      ("SPRING25", "25% off spring collection");
      ("WELCOME15", "15% off for new customers");
      ("FLASH50", "50% off flash sale") ]
  ∧ Forall (λ c, Coupon.is_claimed c = false) (Db.seed_rows gen now)
  ∧ ((∀ cd, cd ∈ Db.sample_coupons →
            ∃ c, c ∈ Db.coupons d ∧ Coupon.code c = cd.1) →
     Db.seed gen now d = d)
  ∧ (NoDup (Coupon.id <$> Db.seed_rows gen now) →
     (∀ row, row ∈ Db.seed_rows gen now →
             Db.coupon_conflict row (Db.coupons d) = false) →
     Db.coupons (Db.seed gen now d) = Db.coupons d ++ Db.seed_rows gen now
     ∧ Db.claims (Db.seed gen now d) = Db.claims d
     ∧ Db.seed gen' now' (Db.seed gen now d) = Db.seed gen now d).
Proof.
  assert (∀ g n d0,
            (∀ cd, cd ∈ Db.sample_coupons →
                   ∃ c, c ∈ Db.coupons d0 ∧ Coupon.code c = cd.1) →
            Db.seed g n d0 = d0) as Hpresent.
  { intros g n [tbl cl] Hcodes. unfold Db.seed. cbn [Db.coupons Db.claims] in *.
    f_equal. apply DbFacts.seed_fold_present. intros row Hrow.
    apply list_elem_of_lookup in Hrow as [i Hi].
    unfold Db.seed_rows in Hi. rewrite list_lookup_imap in Hi.
    destruct (Db.sample_coupons !! i) as [cd|] eqn:Hcd; [|done].
    injection Hi as <-. apply (Hcodes cd).
    by eapply list_elem_of_lookup_2. }
  split; [done|]. split; [by repeat constructor|]. split; [apply Hpresent|].
  intros Hnodup Hfree.
  assert (Db.coupons (Db.seed gen now d) = Db.coupons d ++ Db.seed_rows gen now)
    as Hfive.
  { unfold Db.seed. cbn [Db.coupons].
    apply DbFacts.seed_fold_fresh; [done| |done].
    rewrite seed_rows_codes. apply sample_codes_distinct. }
  split; [done|]. split; [done|].
  apply Hpresent. intros cd Hcd. rewrite Hfive.
  apply list_elem_of_lookup in Hcd as [i Hi].
  exists (Coupon.mk (gen i) cd.1 cd.2 false now). split; [|done].
  apply elem_of_app. right. apply list_elem_of_lookup. exists i.
  unfold Db.seed_rows. by rewrite list_lookup_imap, Hi.
Qed.

(** The migration run a second time on the store it seeded. *)
Lemma C9_seed_is_idempotent_witness :
  Db.coupons Scenario.seeded = Db.seed_rows Scenario.row_ids 0
  ∧ Db.seed (λ n, "again-" +:+ pretty n) 99 Scenario.seeded = Scenario.seeded.
Proof.
  pose proof (proj2 (proj2 (proj2
    (C9_seed_is_idempotent Scenario.row_ids (λ n, "again-" +:+ pretty n)
       0 99 (Db.mk [] []))))) as H.
  destruct H as (Hfive & _ & Hagain).
  - refine (bool_decide_unpack _ _). vm_compute. exact I.
  - intros row _. reflexivity.
  - split; [exact Hfive|exact Hagain].
Defined.

End Claims.

(** * Further properties of the code *)

(** ** The store under its constraints *)

Module StoreExtras.
Import App Spec Schema.

(** What every request served keeps, every run keeps. *)
Lemma run_db_invariant (P : Db.t → Prop) :
  (∀ X (req : Request X) net d, P d → P (answer req net d).2) →
  ∀ o ls w, P (db w) → P (db (run o ls w)).
Proof.
  intros Hanswer o ls. unfold run.
  induction ls as [|l ls IH]; intros w Hw; [done|]. cbn [foldl]. apply IH.
  destruct l as [| | | |i net|X req net]; unfold step; try done.
  - by destruct (button_disabled _).
  - by destruct (truthy_number _).
  - destruct (suspended (client w) !! i) as [[X e k]|]; [|done].
    unfold resume. destruct e; try done.
    specialize (Hanswer _ req net (db w) Hw).
    by destruct (answer req net (db w)).
  - by apply Hanswer.
Qed.

Lemma references_coupon_elem (id : string) (d : Db.t) :
  Db.references_coupon id d = true ↔ id ∈ Coupon.id <$> Db.coupons d.
Proof.
  unfold Db.references_coupon. rewrite existsb_exists, list_elem_of_fmap.
  split.
  - intros (c & Hin & Hid). exists c. apply bool_decide_eq_true in Hid.
    split; [done|]. by apply list_elem_of_In.
  - intros (c & -> & Hin). exists c. split; [by apply list_elem_of_In|].
    by apply bool_decide_eq_true.
Qed.

Lemma claim_id_taken_elem (id : string) (d : Db.t) :
  Db.claim_id_taken id d = true ↔ id ∈ Claim.id <$> Db.claims d.
Proof.
  unfold Db.claim_id_taken. rewrite existsb_exists, list_elem_of_fmap.
  split.
  - intros (c & Hin & Hid). exists c. apply bool_decide_eq_true in Hid.
    split; [done|]. by apply list_elem_of_In.
  - intros (c & -> & Hin). exists c. split; [by apply list_elem_of_In|].
    by apply bool_decide_eq_true.
Qed.

Lemma update_keeps_ids (patch : bool) (id : string) (l : list Coupon.t) :
  Coupon.id <$> (Db.update_row patch id <$> l) = Coupon.id <$> l.
Proof.
  rewrite <- list_fmap_compose. apply list_fmap_ext. intros i c _.
  cbn [compose]. apply DbFacts.update_row_id.
Qed.

Lemma update_keeps_codes (patch : bool) (id : string) (l : list Coupon.t) :
  Coupon.code <$> (Db.update_row patch id <$> l) = Coupon.code <$> l.
Proof.
  rewrite <- list_fmap_compose. apply list_fmap_ext. intros i c _.
  cbn [compose]. unfold Db.update_row. by destruct (_ && _).
Qed.

Lemma seed_keeps_ids_present (gen : nat → string) (now : Z) (d : Db.t)
    (id : string) :
  id ∈ Coupon.id <$> Db.coupons d →
  id ∈ Coupon.id <$> Db.coupons (Db.seed gen now d).
Proof.
  intros Hin. unfold Db.seed. cbn [Db.coupons].
  destruct (DbFacts.seed_fold_prefix (Db.seed_rows gen now) (Db.coupons d))
    as (added & ->).
  rewrite fmap_app. apply elem_of_app. by left.
Qed.

(** Every claim record names a coupon of the table, and no request the
    store serves, from this tab or from another visitor, and no run of
    the seed statement ever breaks that: a claim for an unknown coupon is
    rejected by the foreign key, and coupons are never removed nor
    renamed. *)
Theorem claims_always_reference_a_coupon :
  (∀ X (req : Request X) net d,
     referential d → referential (answer req net d).2)
  ∧ (∀ gen now d, referential d → referential (Db.seed gen now d))
  ∧ (∀ o ls w, referential (db w) → referential (db (run o ls w))).
Proof.
  assert (∀ X (req : Request X) net d,
            referential d → referential (answer req net d).2) as Hanswer.
  { intros X req [|g t] d Hd; [done|]. unfold referential in *.
    destruct req; cbn [answer Db.handle snd]; try done.
    - cbn [Db.update_coupon Db.claims]. eapply Forall_impl; [exact Hd|].
      intros cl Hcl. cbn beta in *. rewrite references_coupon_elem in Hcl |- *.
      unfold Db.update_coupon. cbn [Db.coupons]. by rewrite update_keeps_ids.
    - unfold Db.insert_claim.
      destruct (Db.references_coupon coupon_id d) eqn:Href; cbn [andb];
        [|done].
      destruct (negb _); cbn [snd]; [|done].
      cbn [Db.claims]. apply Forall_app. split.
      + eapply Forall_impl; [exact Hd|]. intros cl Hcl. cbn beta in *.
        by rewrite references_coupon_elem in Hcl |- *.
      + repeat constructor. cbn [Claim.coupon_id].
        by rewrite references_coupon_elem in Href |- *. }
  split; [done|]. split.
  - intros gen now d Hd. unfold referential in *.
    cbn [Db.seed Db.claims]. eapply Forall_impl; [exact Hd|].
    intros cl Hcl. cbn beta in *. rewrite references_coupon_elem in Hcl |- *.
    by apply seed_keeps_ids_present.
  - by apply run_db_invariant.
Qed.

(** No two claim records share an identifier, whatever is served: an
    insert whose generated identifier is taken is rejected by the primary
    key and nothing else adds a record. *)
Theorem claim_ids_stay_unique :
  (∀ X (req : Request X) net d,
     claim_ids_unique d → claim_ids_unique (answer req net d).2)
  ∧ (∀ gen now d, claim_ids_unique d → claim_ids_unique (Db.seed gen now d))
  ∧ (∀ o ls w, claim_ids_unique (db w) → claim_ids_unique (db (run o ls w))).
Proof.
  assert (∀ X (req : Request X) net d,
            claim_ids_unique d → claim_ids_unique (answer req net d).2)
    as Hanswer.
  { intros X req [|g t] d Hd; [done|]. unfold claim_ids_unique in *.
    destruct req; cbn [answer Db.handle snd]; try done.
    unfold Db.insert_claim. destruct (Db.references_coupon _ _); cbn [andb];
      [|done].
    destruct (Db.claim_id_taken g d) eqn:Htaken; cbn [negb snd]; [done|].
    cbn [Db.claims]. rewrite fmap_app. apply NoDup_app. split; [done|].
    split; [|apply NoDup_singleton].
    intros x Hx Hx'. cbn in Hx'. apply list_elem_of_singleton in Hx' as ->.
    apply claim_id_taken_elem in Hx. congruence. }
  split; [done|]. split; [done|]. by apply run_db_invariant.
Qed.

Lemma insert_coupon_keeps_keys (row : Coupon.t) (tbl : list Coupon.t) :
  NoDup (Coupon.id <$> tbl) ∧ NoDup (Coupon.code <$> tbl) →
  NoDup (Coupon.id <$> Db.insert_coupon_do_nothing row tbl)
  ∧ NoDup (Coupon.code <$> Db.insert_coupon_do_nothing row tbl).
Proof.
  intros [Hid Hcode]. unfold Db.insert_coupon_do_nothing.
  destruct (Db.coupon_conflict row tbl) eqn:Hc; [done|].
  assert (∀ c, c ∈ tbl → Coupon.id c ≠ Coupon.id row
                         ∧ Coupon.code c ≠ Coupon.code row) as Hfree.
  { intros c Hin. unfold Db.coupon_conflict in Hc.
    apply not_true_iff_false in Hc. rewrite existsb_exists in Hc.
    split; intros E; apply Hc; exists c;
      (split; [by apply list_elem_of_In|]); apply orb_true_iff;
      [left|right]; by apply bool_decide_eq_true. }
  rewrite !fmap_app. split; apply NoDup_app; (split; [done|]);
    (split; [|apply NoDup_singleton]); intros x Hx Hx'; cbn in Hx';
    apply list_elem_of_singleton in Hx' as ->;
    apply list_elem_of_fmap in Hx as (c & E & Hin);
    destruct (Hfree c Hin); congruence.
Qed.

(** No two coupons share an identifier or a code, whatever is served and
    however often the seed statement runs: an update changes neither
    column, and the seed skips a row that conflicts on either. *)
Theorem coupon_keys_stay_unique :
  (∀ X (req : Request X) net d,
     coupon_keys_unique d → coupon_keys_unique (answer req net d).2)
  ∧ (∀ gen now d, coupon_keys_unique d → coupon_keys_unique (Db.seed gen now d))
  ∧ (∀ o ls w, coupon_keys_unique (db w) → coupon_keys_unique (db (run o ls w))).
Proof.
  assert (∀ X (req : Request X) net d,
            coupon_keys_unique d → coupon_keys_unique (answer req net d).2)
    as Hanswer.
  { intros X req [|g t] d Hd; [done|]. unfold coupon_keys_unique in *.
    destruct req; cbn [answer Db.handle snd]; try done.
    - unfold Db.update_coupon. cbn [Db.coupons].
      by rewrite update_keeps_ids, update_keeps_codes.
    - unfold Db.insert_claim. by destruct (_ && _). }
  split; [done|]. split; [|by apply run_db_invariant].
  intros gen now d. unfold coupon_keys_unique, Db.seed. cbn [Db.coupons].
  generalize (Db.seed_rows gen now) (Db.coupons d). intros rows.
  induction rows as [|r rows IH]; intros tbl Htbl; [done|].
  cbn [foldl]. by apply IH, insert_coupon_keeps_keys.
Qed.

(** The update of a coupon that is already claimed, or that the table does
    not hold, is answered as a success and changes nothing; so is every
    update whose patch is [is_claimed: false]; and the client's update,
    sent twice, does what it does once. *)
Theorem update_that_changes_nothing_succeeds :
  (∀ patch id g t d,
     Forall (λ c, Coupon.id c = id → Coupon.is_claimed c = true)
            (Db.coupons d) →
     answer (UpdateCoupon patch id) (Reached g t) d = (Ok (), d))
  ∧ (∀ id g t d, answer (UpdateCoupon false id) (Reached g t) d = (Ok (), d))
  ∧ (∀ id d,
       Db.update_coupon true id (Db.update_coupon true id d)
       = Db.update_coupon true id d).
Proof.
  split; [|split].
  - intros patch id g t [tbl cl] Hall. cbn. f_equal.
    unfold Db.update_coupon. cbn [Db.coupons Db.claims] in *. f_equal.
    rewrite <- (list_fmap_id tbl) at 2. apply Forall_fmap_ext_1.
    eapply Forall_impl; [exact Hall|]. intros c Hc. cbn beta in Hc.
    unfold Db.update_row.
    destruct (bool_decide (Coupon.id c = id)) eqn:E; [|done].
    apply bool_decide_eq_true in E. by rewrite (Hc E).
  - intros id g t [tbl cl]. cbn. f_equal.
    unfold Db.update_coupon. cbn [Db.coupons Db.claims]. f_equal.
    rewrite <- (list_fmap_id tbl) at 2. apply list_fmap_ext.
    intros i [cid code descr claimed created] _. unfold Db.update_row.
    cbn. destruct (bool_decide _); [|done]. by destruct claimed.
  - intros id [tbl cl]. unfold Db.update_coupon. cbn [Db.coupons Db.claims].
    f_equal. rewrite <- list_fmap_compose. apply list_fmap_ext.
    intros i [cid code descr claimed created] _. cbn [compose].
    unfold Db.update_row. cbn.
    destruct (bool_decide (cid = id)) eqn:E, claimed; cbn; by rewrite ?E.
Qed.

Lemma coupon_conflict_iff (row : Coupon.t) (tbl : list Coupon.t) :
  Db.coupon_conflict row tbl = true
  ↔ Coupon.id row ∈ Coupon.id <$> tbl ∨ Coupon.code row ∈ Coupon.code <$> tbl.
Proof.
  unfold Db.coupon_conflict. rewrite existsb_exists, !list_elem_of_fmap.
  split.
  - intros (c & Hin & Hc). apply list_elem_of_In in Hin.
    apply orb_true_iff in Hc as [E|E]; apply bool_decide_eq_true in E;
      [left|right]; by exists c.
  - intros [(c & E & Hin)|(c & E & Hin)]; exists c;
      (split; [by apply list_elem_of_In|]); apply orb_true_iff;
      [left|right]; by apply bool_decide_eq_true.
Qed.

Lemma filter_agree {A : Type} (P Q : A → Prop)
    `{∀ x, Decision (P x)} `{∀ x, Decision (Q x)} (l : list A) :
  (∀ x, x ∈ l → P x ↔ Q x) → filter P l = filter Q l.
Proof.
  induction l as [|a l IH]; intros Hagree; [done|].
  rewrite !filter_cons, IH by (intros x Hx; apply Hagree; by right).
  destruct (decide (P a)) as [Hp|Hp], (decide (Q a)) as [Hq|Hq]; try done;
    exfalso; apply (Hagree a) in Hp || apply (Hagree a) in Hq;
    try done; left.
Qed.

Lemma seed_fold_missing (rows tbl : list Coupon.t) :
  NoDup (Coupon.id <$> rows) →
  NoDup (Coupon.code <$> rows) →
  (∀ r, r ∈ rows → Coupon.id r ∉ Coupon.id <$> tbl) →
  foldl (λ tbl row, Db.insert_coupon_do_nothing row tbl) tbl rows
  = tbl ++ filter (λ r, Coupon.code r ∉ Coupon.code <$> tbl) rows.
Proof.
  revert tbl. induction rows as [|r rows IH]; intros tbl Hid Hcode Hfresh.
  - by rewrite app_nil_r.
  - cbn [fmap list_fmap] in Hid, Hcode.
    apply NoDup_cons in Hid as [Hid1 Hid], Hcode as [Hcode1 Hcode].
    cbn [foldl]. unfold Db.insert_coupon_do_nothing at 2.
    destruct (Db.coupon_conflict r tbl) eqn:Hc.
    + apply coupon_conflict_iff in Hc as [Hc|Hc];
        [by destruct (Hfresh r (list_elem_of_here _ _))|].
      rewrite filter_cons_False by (intros Hn; by apply Hn).
      apply IH; [done|done|]. intros r' Hr'. apply Hfresh. by right.
    + assert (Coupon.code r ∉ Coupon.code <$> tbl) as Hmissing.
      { intros Hin. apply not_true_iff_false in Hc. apply Hc.
        apply coupon_conflict_iff. by right. }
      rewrite filter_cons_True by done. rewrite IH; [|done|done|].
      * rewrite <- app_assoc. cbn [app]. do 2 f_equal.
        apply filter_agree. intros r' Hr'. rewrite fmap_app, not_elem_of_app.
        split; [by intros [? _]|]. intros Hn. split; [done|].
        cbn. rewrite list_elem_of_singleton. intros E. apply Hcode1.
        rewrite <- E. apply list_elem_of_fmap. by exists r'.
      * intros r' Hr'. rewrite fmap_app, not_elem_of_app. split.
        -- apply Hfresh. by right.
        -- cbn. rewrite list_elem_of_singleton. intros E. apply Hid1.
           rewrite <- E. apply list_elem_of_fmap. by exists r'.
Qed.

(** On a table that holds some of the sample codes already, the seed
    statement appends exactly the proposed rows whose code is missing, in
    the order of the statement, and leaves every code of the statement
    present (the generated identifiers being new and distinct). *)
Theorem seed_completes_a_partial_table
    (gen : nat → string) (now : Z) (d : Db.t) :
  NoDup (Coupon.id <$> Db.seed_rows gen now) →
  (∀ row, row ∈ Db.seed_rows gen now →
          Coupon.id row ∉ Coupon.id <$> Db.coupons d) →
  Db.coupons (Db.seed gen now d)
  = Db.coupons d
    ++ filter (λ row, Coupon.code row ∉ Coupon.code <$> Db.coupons d)
              (Db.seed_rows gen now)
  ∧ ∀ cd, cd ∈ Db.sample_coupons →
          ∃ c, c ∈ Db.coupons (Db.seed gen now d) ∧ Coupon.code c = cd.1.
Proof.
  intros Hids Hfresh.
  assert (Db.coupons (Db.seed gen now d)
          = Db.coupons d
            ++ filter (λ row, Coupon.code row ∉ Coupon.code <$> Db.coupons d)
                      (Db.seed_rows gen now)) as Hseed.
  { unfold Db.seed. cbn [Db.coupons]. apply seed_fold_missing; [done| |done].
    change (Coupon.code <$> Db.seed_rows gen now) with (Db.sample_coupons.*1).
    refine (bool_decide_unpack _ _). vm_compute. exact I. }
  split; [done|]. intros cd Hcd. rewrite Hseed.
  apply list_elem_of_lookup in Hcd as [i Hi].
  set (row := Coupon.mk (gen i) cd.1 cd.2 false now).
  assert (row ∈ Db.seed_rows gen now) as Hrow.
  { apply list_elem_of_lookup. exists i. unfold Db.seed_rows.
    by rewrite list_lookup_imap, Hi. }
  destruct (decide (cd.1 ∈ Coupon.code <$> Db.coupons d)) as [Hin|Hout].
  - apply list_elem_of_fmap in Hin as (c & E & Hc). exists c.
    split; [|done]. apply elem_of_app. by left.
  - exists row. split; [|done]. apply elem_of_app. right.
    by apply list_elem_of_filter.
Qed.

(** A table that holds two of the five codes gets the other three. *)
Lemma seed_completes_a_partial_table_witness :
  let gen := λ n : nat, "new-" +:+ pretty n in
  let d := Db.mk [Coupon.mk "a" "FREESHIP" "kept" true 5;
                  Coupon.mk "b" "FLASH50" "kept too" false 6] [] in
  Db.coupons (Db.seed gen 9 d)
  = Db.coupons d
    ++ filter (λ row, Coupon.code row ∉ Coupon.code <$> Db.coupons d)
              (Db.seed_rows gen 9)
  ∧ ∀ cd, cd ∈ Db.sample_coupons →
          ∃ c, c ∈ Db.coupons (Db.seed gen 9 d) ∧ Coupon.code c = cd.1.
Proof.
  intros gen d. refine (seed_completes_a_partial_table gen 9 d _ _).
  - refine (bool_decide_unpack _ _). vm_compute. exact I.
  - refine (proj1 (Forall_forall _ _) _).
    refine (bool_decide_unpack _ _). vm_compute. exact I.
Defined.

End StoreExtras.

(** ** The functions of the component *)

Module ClientExtras.
Import App Spec AppFacts.

(** *** Loading the list and the last claim *)

(** [fetchCoupons], whatever the answer: the spinner is taken down, the
    store is only read.  When the request fails the list is left as it
    was and the visitor is told "Failed to load coupons"; when it is
    answered the list becomes the answer and nothing is shown.  Neither
    touches the in-flight flag or the countdown. *)
Theorem fetch_coupons_outcomes (o : Oracle) (w : World) (net : Net) :
  let i := length (suspended (client w)) in
  let w1 := run o [Mount; Deliver i net] w in
  loading (state (client w1)) = false
  ∧ db w1 = db w
  ∧ claiming (state (client w1)) = claiming (state (client w))
  ∧ nextClaimTime (state (client w1)) = nextClaimTime (state (client w))
  ∧ timeLeft (state (client w1)) = timeLeft (state (client w))
  ∧ match net with
    | Failed =>
        coupons (state (client w1)) = coupons (state (client w))
        ∧ notices (client w1)
          = notices (client w)
            ++ [ToastErrorShown "Failed to load coupons"; ConsoleErrorLogged]
    | Reached _ _ =>
        coupons (state (client w1)) = Db.select_coupons (db w)
        ∧ notices (client w1) = notices (client w)
    end.
Proof.
  intros i w1. subst i w1. open_world w. unfold run. cbn [foldl].
  rewrite !mount_eq. norm. rewrite !deliver_before_one.
  destruct net as [|g t]; unfold answer; cbn [Db.handle]; norm;
    repeat split; try done.
  by rewrite <- app_assoc.
Qed.

(** [checkLastClaim] when its query fails or finds no record: nothing is
    set and nothing is shown, so a failed query looks like a store without
    claims. *)
Theorem check_last_claim_fails_silently
    (o : Oracle) (w : World) (net : Net) :
  last_claim_seen net (db w) = None →
  let i := length (suspended (client w)) in
  let w1 := run o [Mount; Deliver (S i) net] w in
  state (client w1) = state (client w)
  ∧ notices (client w1) = notices (client w)
  ∧ localStorage (client w1) = localStorage (client w)
  ∧ db w1 = db w
  ∧ requests_in_flight (client w1)
    = requests_in_flight (client w) ++ [any SelectCoupons].
Proof.
  intros Hseen i w1. subst i w1. open_world w. unfold run. cbn [foldl].
  rewrite !mount_eq. norm. rewrite !deliver_after_one, !answer_recent_claim.
  destruct net as [|g t]; cbn [last_claim_seen] in Hseen;
    [|rewrite Hseen]; norm; repeat split; try done; by in_flight.
Qed.

Lemma check_last_claim_fails_silently_witness :
  let o := Scenario.clock_from Scenario.minute in
  let w := Scenario.overtaken o in
  let i := length (suspended (client w)) in
  let w1 := run o [Mount; Deliver (S i) Failed] w in
  state (client w1) = state (client w)
  ∧ notices (client w1) = notices (client w)
  ∧ localStorage (client w1) = localStorage (client w)
  ∧ db w1 = db w
  ∧ requests_in_flight (client w1)
    = requests_in_flight (client w) ++ [any SelectCoupons].
Proof.
  intros o w. refine (check_last_claim_fails_silently o w Failed _).
  reflexivity.
Defined.

(** *** The countdown *)

(** A tick of the interval before the deadline shows the time left as
    whole minutes and seconds: the seconds are between 0 and 59 and the
    text is the time left rounded down to the second.  The deadline stays
    and nothing else happens. *)
Theorem countdown_text_rounds_down (o : Oracle) (w : World) (deadline : Z) :
  nextClaimTime (state (client w)) = Some deadline →
  deadline ≠ 0 →
  let now := date_now o (date_reads (client w)) in
  0 < deadline - now →
  let w1 := step o Tick w in
  ∃ minutes seconds,
    timeLeft (state (client w1))
    = Some (pretty minutes +:+ "m " +:+ pretty seconds +:+ "s")
    ∧ 0 ≤ minutes
    ∧ 0 ≤ seconds ≤ 59
    ∧ minutes * 60000 + seconds * 1000 ≤ deadline - now
    ∧ deadline - now < minutes * 60000 + seconds * 1000 + 1000
    ∧ nextClaimTime (state (client w1)) = Some deadline
    ∧ db w1 = db w
    ∧ notices (client w1) = notices (client w)
    ∧ suspended (client w1) = suspended (client w).
Proof.
  intros Hnx Hnz now Hpos w1. subst now w1. open_world w. subst nx.
  unfold step. cbn [client state nextClaimTime truthy_number].
  apply Z.eqb_neq in Hnz. rewrite Hnz. norm. rewrite Hnz. norm.
  assert ((deadline - date_now o dr <=? 0) = false) as -> by lia. norm.
  exists ((deadline - date_now o dr) / 60000),
         (Z.rem (deadline - date_now o dr) 60000 / 1000).
  rewrite Z.rem_mod_nonneg by lia.
  repeat split; try done; Z.to_euclidean_division_equations; lia.
Qed.

Lemma countdown_text_rounds_down_witness :
  let o := Scenario.clock_from (30 * Scenario.minute) in
  let w := MoreScenarios.refused o in
  ∃ minutes seconds,
    timeLeft (state (client (step o Tick w)))
    = Some (pretty minutes +:+ "m " +:+ pretty seconds +:+ "s")
    ∧ 0 ≤ minutes
    ∧ 0 ≤ seconds ≤ 59
    ∧ minutes * 60000 + seconds * 1000
      ≤ 66 * Scenario.minute - date_now o (date_reads (client w))
    ∧ 66 * Scenario.minute - date_now o (date_reads (client w))
      < minutes * 60000 + seconds * 1000 + 1000
    ∧ nextClaimTime (state (client (step o Tick w)))
      = Some (66 * Scenario.minute)
    ∧ db (step o Tick w) = db w
    ∧ notices (client (step o Tick w)) = notices (client w)
    ∧ suspended (client (step o Tick w)) = suspended (client w).
Proof.
  intros o w.
  refine (countdown_text_rounds_down o w (66 * Scenario.minute) _ _ _);
    vm_compute; congruence.
Defined.

(** A tick at or after the deadline ends the countdown: deadline and text
    are cleared, the button is disabled only by a claim in flight or by
    the first load, the interval is taken down (a further tick does
    nothing), and nothing is sent or shown. *)
Theorem countdown_ends_at_deadline (o : Oracle) (w : World) (deadline : Z) :
  nextClaimTime (state (client w)) = Some deadline →
  deadline ≠ 0 →
  deadline - date_now o (date_reads (client w)) ≤ 0 →
  let w1 := step o Tick w in
  nextClaimTime (state (client w1)) = None
  ∧ timeLeft (state (client w1)) = None
  ∧ button_disabled (state (client w1))
    = claiming (state (client w)) || loading (state (client w))
  ∧ step o Tick w1 = w1
  ∧ db w1 = db w
  ∧ notices (client w1) = notices (client w)
  ∧ suspended (client w1) = suspended (client w).
Proof.
  intros Hnx Hnz Hover w1. subst w1. open_world w. subst nx.
  apply Z.eqb_neq in Hnz.
  assert (step o Tick
            (mkWorld (mkClient (mkState cs ld cl (Some deadline) tl)
                               ls ns ps dr ur) d)
          = mkWorld (mkClient (mkState cs ld cl None None)
                              ls ns ps (S dr) ur) d) as ->.
  { unfold step. cbn [client state nextClaimTime truthy_number].
    rewrite Hnz. norm. rewrite Hnz. norm.
    assert ((deadline - date_now o dr <=? 0) = true) as -> by lia.
    by norm. }
  unfold button_disabled. cbn. repeat split; try done.
  by rewrite orb_false_r.
Qed.

Lemma countdown_ends_at_deadline_witness :
  let o := Scenario.clock_from (120 * Scenario.minute + 500) in
  let w := Scenario.stale_deadline o in
  let w1 := step o Tick w in
  nextClaimTime (state (client w1)) = None
  ∧ timeLeft (state (client w1)) = None
  ∧ button_disabled (state (client w1))
    = claiming (state (client w)) || loading (state (client w))
  ∧ step o Tick w1 = w1
  ∧ db w1 = db w
  ∧ notices (client w1) = notices (client w)
  ∧ suspended (client w1) = suspended (client w).
Proof.
  intros o w.
  refine (countdown_ends_at_deadline o w (61 * Scenario.minute) _ _ _);
    vm_compute; congruence.
Defined.

(** *** The rate limit *)

(** The rate-limit test is strict at one hour: the attempt is refused with
    "Please wait 1 hour between claims" exactly when the clock shows less
    than 3,600,000 ms past the timestamp its query brought back (also when
    the clock is behind that timestamp), and goes on to the update of the
    chosen coupon exactly when it shows 3,600,000 ms or more. *)
Theorem rate_limit_is_strict_at_one_hour
    (o : Oracle) (w : World) (c : Coupon.t) (n1 : Net) (T : Z) :
  claiming (state (client w)) = false →
  find (λ c, negb (Coupon.is_claimed c)) (coupons (state (client w))) = Some c →
  last_claim_seen n1 (db w) = Some T →
  let now := date_now o (date_reads (client w)) in
  let w1 := run o [Invoke; Deliver (length (suspended (client w))) n1] w in
  (now - T < hour
   ↔ notices (client w1)
     = notices (client w)
       ++ [ToastErrorShown "Please wait 1 hour between claims"])
  ∧ (hour ≤ now - T
     ↔ requests_in_flight (client w1)
       = requests_in_flight (client w)
         ++ [any (UpdateCoupon true (Coupon.id c))]).
Proof.
  intros Hfl Hfind Hseen now w1.
  pose proof (cooldown_refuses o w c n1 T Hfl Hfind Hseen) as Hrefuse.
  pose proof (cooldown_permits o w c n1 T Hfl Hfind Hseen) as Hpermit.
  cbv zeta in Hrefuse, Hpermit. fold now w1 in Hrefuse, Hpermit.
  destruct (decide (now - T < hour)) as [Hlt|Hge].
  - destruct (Hrefuse Hlt) as (_ & Hsusp & _ & Hnotices & _).
    split; split; try done; try lia.
    intros Hreq. exfalso. unfold requests_in_flight in Hreq.
    rewrite Hsusp in Hreq. apply (f_equal length) in Hreq.
    rewrite length_app in Hreq. cbn in Hreq. lia.
  - destruct (Hpermit ltac:(lia)) as (_ & Hreq & Hnotices & _).
    split; split; try done; try lia.
    intros Hn. exfalso. rewrite Hnotices in Hn. apply (f_equal length) in Hn.
    rewrite length_app in Hn. cbn in Hn. lia.
Qed.

(** At one hour to the millisecond the attempt goes on. *)
Lemma rate_limit_is_strict_at_one_hour_witness :
  let o := Scenario.clock_from (66 * Scenario.minute) in
  let w := Scenario.overtaken o in
  let T := 6 * Scenario.minute in
  let c := Coupon.mk "coupon-0" "SAVE10" "10% off your next purchase" false 0 in
  let n1 := Reached "" (66 * Scenario.minute) in
  date_now o (date_reads (client w)) - T = hour
  ∧ requests_in_flight
      (client (run o [Invoke; Deliver (length (suspended (client w))) n1] w))
    = requests_in_flight (client w)
      ++ [any (UpdateCoupon true (Coupon.id c))].
Proof.
  intros o w T c n1. split; [by vm_compute|].
  refine (proj1 (proj2 (rate_limit_is_strict_at_one_hour o w c n1 T _ _ _)) _);
    vm_compute; congruence.
Defined.

(** What a refusal leaves of the countdown is decided by the deadline of
    the render the handler was created in, not by the one it has just
    set.  When that deadline is over, the refusal clears deadline and
    text; when it is still ahead, the new deadline stays and the text
    shows the time left to the old one. *)
Theorem refusal_reads_the_deadline_of_its_render
    (o : Oracle) (w : World) (c : Coupon.t) (n1 : Net) (T deadline : Z) :
  claiming (state (client w)) = false →
  find (λ c, negb (Coupon.is_claimed c)) (coupons (state (client w))) = Some c →
  last_claim_seen n1 (db w) = Some T →
  date_now o (date_reads (client w)) - T < hour →
  nextClaimTime (state (client w)) = Some deadline →
  deadline ≠ 0 →
  let left := deadline - date_now o (S (date_reads (client w))) in
  let w1 := run o [Invoke; Deliver (length (suspended (client w))) n1] w in
  (left ≤ 0 →
   nextClaimTime (state (client w1)) = None
   ∧ timeLeft (state (client w1)) = None)
  ∧ (0 < left →
     nextClaimTime (state (client w1)) = Some (T + hour)
     ∧ timeLeft (state (client w1))
       = Some (pretty (left / 60000) +:+ "m "
               +:+ pretty (Z.rem left 60000 / 1000) +:+ "s")).
Proof.
  intros Hfl Hfind Hseen Hlt Hnx Hnz left w1. subst left w1.
  open_world w. subst cl nx. apply Qltb_hours in Hlt.
  apply Z.eqb_neq in Hnz.
  start. fire. rewrite Hfind. norm. fire. rewrite answer_recent_claim.
  destruct n1 as [|g t]; [done|]. cbn [last_claim_seen] in Hseen.
  rewrite Hseen. norm. rewrite Hlt. norm. rewrite Hnz. norm.
  destruct (deadline - date_now o (S dr) <=? 0) eqn:Hle; norm;
    split; intros ?; try lia; done.
Qed.

Lemma refusal_reads_the_deadline_of_its_render_witness :
  let o := Scenario.clock_from (120 * Scenario.minute + 500) in
  let w := Scenario.stale_deadline o in
  let w1 := run o [Invoke; Deliver (length (suspended (client w)))
                                   (Reached "" 0)] w in
  nextClaimTime (state (client w1)) = None
  ∧ timeLeft (state (client w1)) = None.
Proof.
  intros o w.
  refine (proj1 (refusal_reads_the_deadline_of_its_render o w
            (Coupon.mk "coupon-1" "FREESHIP" "Free shipping on orders over $50"
                       false 0)
            (Reached "" 0) (120 * Scenario.minute + 100)
            (61 * Scenario.minute) _ _ _ _ _ _) _);
    vm_compute; congruence.
Defined.

(** *** The outcomes of a claim attempt *)

(** The update of a coupon does not change what the insert of a claim
    record is checked against. *)
Lemma insert_check_after_update (patch : bool) (id cid g : string) (d : Db.t) :
  Db.references_coupon cid (Db.update_coupon patch id d)
  && negb (Db.claim_id_taken g (Db.update_coupon patch id d))
  = Db.references_coupon cid d && negb (Db.claim_id_taken g d).
Proof.
  f_equal. unfold Db.references_coupon, Db.update_coupon. cbn [Db.coupons].
  induction (Db.coupons d) as [|c l IH]; [done|].
  cbn [fmap list_fmap existsb]. rewrite <- IH. f_equal.
  by rewrite DbFacts.update_row_id.
Qed.

Lemma update_row_marks (id : string) (r : Coupon.t) :
  Coupon.id (Db.update_row true id r) = id →
  Coupon.is_claimed (Db.update_row true id r) = true.
Proof.
  unfold Db.update_row.
  destruct (bool_decide (Coupon.id r = id)) eqn:E,
           (Coupon.is_claimed r) eqn:Hc; cbn; try done.
  intros Hid. by apply bool_decide_eq_false in E.
Qed.

(** When the update of the coupon fails, the insert is never sent: the
    store is as it was, nothing is left in flight, the visitor is told
    "Failed to claim coupon" and the button is released.  The browser
    identifier has been stored all the same. *)
Theorem failed_update_sends_no_insert
    (o : Oracle) (w : World) (c : Coupon.t) (n1 n3 : Net) :
  claiming (state (client w)) = false →
  find (λ c, negb (Coupon.is_claimed c)) (coupons (state (client w))) = Some c →
  cooldown_over (last_claim_seen n1 (db w))
                (date_now o (date_reads (client w))) →
  let w' := attempt o n1 Failed n3 w in
  db w' = db w
  ∧ suspended (client w') = suspended (client w)
  ∧ notices (client w')
    = notices (client w)
      ++ [ToastErrorShown "Failed to claim coupon"; ConsoleErrorLogged]
  ∧ claiming (state (client w')) = false
  ∧ ∃ b, localStorage (client w') !! "browser_id" = Some b.
Proof.
  intros Hfl Hfind Hcool w'. subst w'. open_world w. subst cl.
  start. fire. rewrite Hfind. norm. crank.
  all: try cooldown_clash.
  all: cbn [db client localStorage].
  all: repeat split; try done; try (by rewrite <- app_assoc).
  all: eexists; first [by rewrite lookup_insert_eq | reflexivity].
Qed.

Lemma failed_update_sends_no_insert_witness :
  let o := Scenario.clock_from (2 * Scenario.minute) in
  let w := Scenario.quiet o in
  let w' := attempt o (Reached "" 0) Failed Failed w in
  db w' = db w
  ∧ suspended (client w') = suspended (client w)
  ∧ notices (client w')
    = notices (client w)
      ++ [ToastErrorShown "Failed to claim coupon"; ConsoleErrorLogged]
  ∧ claiming (state (client w')) = false
  ∧ ∃ b, localStorage (client w') !! "browser_id" = Some b.
Proof.
  intros o w.
  refine (failed_update_sends_no_insert o w
            (Coupon.mk "coupon-0" "SAVE10" "10% off your next purchase" false 0)
            _ _ _ _ _).
  - vm_compute; reflexivity.
  - vm_compute; reflexivity.
  - intros T HT. vm_compute in HT. discriminate.
Defined.

(** A claim attempt whose two writes go through: the rows of the chosen
    coupon are claimed, one claim record is appended with that coupon,
    the stored browser identifier, the placeholder address and the
    store's time, the visitor is told the code, the button is released
    and the two refreshing reads are sent.  The list of the tab is not
    changed yet. *)
Theorem successful_claim
    (o : Oracle) (w : World) (c : Coupon.t) (n1 : Net)
    (g2 : string) (t2 : Z) (g3 : string) (t3 : Z) :
  claiming (state (client w)) = false →
  find (λ c, negb (Coupon.is_claimed c)) (coupons (state (client w))) = Some c →
  cooldown_over (last_claim_seen n1 (db w))
                (date_now o (date_reads (client w))) →
  Db.references_coupon (Coupon.id c) (db w) = true →
  Db.claim_id_taken g3 (db w) = false →
  let w' := attempt o n1 (Reached g2 t2) (Reached g3 t3) w in
  ∃ b,
    localStorage (client w') !! "browser_id" = Some b
    ∧ db w'
      = Db.mk (Db.update_row true (Coupon.id c) <$> Db.coupons (db w))
              (Db.claims (db w)
               ++ [Claim.mk g3 (Coupon.id c) "client-ip" b t3])
    ∧ notices (client w')
      = notices (client w)
        ++ [ToastSuccessShown ("Claimed coupon: " +:+ Coupon.code c)]
    ∧ claiming (state (client w')) = false
    ∧ coupons (state (client w')) = coupons (state (client w))
    ∧ requests_in_flight (client w')
      = requests_in_flight (client w)
        ++ [any SelectCoupons; any SelectRecentClaim].
Proof.
  intros Hfl Hfind Hcool Href Hfresh w'. subst w'. open_world w. subst cl.
  start. fire. rewrite Hfind. norm. crank.
  all: try cooldown_clash.
  all: try (rewrite insert_check_after_update, Href, Hfresh in *;
            discriminate).
  all: cbn [db client localStorage].
  all: eexists; split; [first [by rewrite lookup_insert_eq | reflexivity]|].
  all: repeat split; try done; by in_flight.
Qed.

Lemma successful_claim_witness :
  let o := Scenario.clock_from (2 * Scenario.minute) in
  let w := Scenario.quiet o in
  let c := Coupon.mk "coupon-0" "SAVE10" "10% off your next purchase" false 0 in
  let w' := attempt o (Reached "" 0) (Reached "" 0)
                      (Reached "claim-1" (2 * Scenario.minute)) w in
  ∃ b,
    localStorage (client w') !! "browser_id" = Some b
    ∧ db w'
      = Db.mk (Db.update_row true (Coupon.id c) <$> Db.coupons (db w))
              (Db.claims (db w)
               ++ [Claim.mk "claim-1" (Coupon.id c) "client-ip" b
                            (2 * Scenario.minute)])
    ∧ notices (client w')
      = notices (client w)
        ++ [ToastSuccessShown ("Claimed coupon: " +:+ Coupon.code c)]
    ∧ claiming (state (client w')) = false
    ∧ coupons (state (client w')) = coupons (state (client w))
    ∧ requests_in_flight (client w')
      = requests_in_flight (client w)
        ++ [any SelectCoupons; any SelectRecentClaim].
Proof.
  intros o w c.
  refine (successful_claim o w c _ _ _ _ _ _ _ _ _ _).
  - vm_compute; reflexivity.
  - vm_compute; reflexivity.
  - intros T HT. vm_compute in HT. discriminate.
  - vm_compute; reflexivity.
  - vm_compute; reflexivity.
Defined.

(** The list of a tab can be behind the store.  When the coupon it
    chooses has been claimed by someone else in the meantime and the
    cooldown is over, the update changes nothing and is answered as a
    success, and the attempt appends a further claim record for that
    coupon and reports success. *)
Theorem stale_list_claims_a_claimed_coupon
    (o : Oracle) (w : World) (c : Coupon.t) (n1 : Net)
    (g2 : string) (t2 : Z) (g3 : string) (t3 : Z) :
  claiming (state (client w)) = false →
  find (λ c, negb (Coupon.is_claimed c)) (coupons (state (client w))) = Some c →
  cooldown_over (last_claim_seen n1 (db w))
                (date_now o (date_reads (client w))) →
  Forall (λ row, Coupon.id row = Coupon.id c → Coupon.is_claimed row = true)
         (Db.coupons (db w)) →
  Db.references_coupon (Coupon.id c) (db w) = true →
  Db.claim_id_taken g3 (db w) = false →
  let w' := attempt o n1 (Reached g2 t2) (Reached g3 t3) w in
  Db.coupons (db w') = Db.coupons (db w)
  ∧ (∃ b, Db.claims (db w')
          = Db.claims (db w)
            ++ [Claim.mk g3 (Coupon.id c) "client-ip" b t3])
  ∧ notices (client w')
    = notices (client w)
      ++ [ToastSuccessShown ("Claimed coupon: " +:+ Coupon.code c)].
Proof.
  intros Hfl Hfind Hcool Hclaimed Href Hfresh w'. subst w'.
  assert (Db.update_row true (Coupon.id c) <$> Db.coupons (db w)
          = Db.coupons (db w)) as Hnoop.
  { rewrite <- (list_fmap_id (Db.coupons (db w))) at 2.
    apply Forall_fmap_ext_1. eapply Forall_impl; [exact Hclaimed|].
    intros row Hrow. cbn beta in Hrow. unfold Db.update_row.
    destruct (bool_decide (Coupon.id row = Coupon.id c)) eqn:E; [|done].
    apply bool_decide_eq_true in E. by rewrite (Hrow E). }
  open_world w. subst cl.
  start. fire. rewrite Hfind. norm. crank.
  all: try cooldown_clash.
  all: try (rewrite insert_check_after_update, Href, Hfresh in *;
            discriminate).
  all: cbn [db client Db.coupons Db.claims Db.update_coupon].
  all: rewrite Hnoop.
  all: split; [done|]; split; [by eexists|done].
Qed.

Lemma stale_list_claims_a_claimed_coupon_witness :
  let o := Scenario.clock_from (70 * Scenario.minute) in
  let w := Scenario.overtaken o in
  let c := Coupon.mk "coupon-0" "SAVE10" "10% off your next purchase" false 0 in
  let w' := attempt o (Reached "" 0) (Reached "" 0)
                      (Reached "claim-2" (70 * Scenario.minute)) w in
  Db.coupons (db w') = Db.coupons (db w)
  ∧ (∃ b, Db.claims (db w')
          = Db.claims (db w)
            ++ [Claim.mk "claim-2" (Coupon.id c) "client-ip" b
                         (70 * Scenario.minute)])
  ∧ notices (client w')
    = notices (client w)
      ++ [ToastSuccessShown ("Claimed coupon: " +:+ Coupon.code c)].
Proof.
  intros o w c.
  refine (stale_list_claims_a_claimed_coupon o w c _ _ _ _ _ _ _ _ _ _ _).
  - vm_compute; reflexivity.
  - vm_compute; reflexivity.
  - intros T HT. vm_compute in HT. injection HT as <-. by vm_compute.
  - refine (bool_decide_unpack _ _). vm_compute. exact I.
  - vm_compute; reflexivity.
  - vm_compute; reflexivity.
Defined.

(** After a successful claim, once the two refreshing reads are answered:
    the list is the store's listing, in which every row of the claimed
    coupon is claimed, so that a next attempt of this tab chooses another
    coupon; and the deadline is one hour after the newest claim record,
    which is not older than the record just inserted. *)
Theorem refresh_after_successful_claim
    (o : Oracle) (w : World) (c : Coupon.t) (n1 : Net)
    (g2 : string) (t2 : Z) (g3 : string) (t3 : Z)
    (g4 : string) (t4 : Z) (g5 : string) (t5 : Z) :
  claiming (state (client w)) = false →
  find (λ c, negb (Coupon.is_claimed c)) (coupons (state (client w))) = Some c →
  cooldown_over (last_claim_seen n1 (db w))
                (date_now o (date_reads (client w))) →
  Db.references_coupon (Coupon.id c) (db w) = true →
  Db.claim_id_taken g3 (db w) = false →
  let i := length (suspended (client w)) in
  let w' := attempt o n1 (Reached g2 t2) (Reached g3 t3) w in
  let w'' := run o [Deliver i (Reached g4 t4); Deliver i (Reached g5 t5)] w' in
  coupons (state (client w'')) = Db.select_coupons (db w')
  ∧ (∀ row, row ∈ coupons (state (client w'')) →
            Coupon.id row = Coupon.id c → Coupon.is_claimed row = true)
  ∧ (∀ c', find (λ c, negb (Coupon.is_claimed c)) (coupons (state (client w'')))
           = Some c' →
           Coupon.id c' ≠ Coupon.id c)
  ∧ (∃ T', most_recent_claim (db w') = Some T'
           ∧ t3 ≤ T'
           ∧ nextClaimTime (state (client w'')) = Some (T' + hour))
  ∧ loading (state (client w'')) = false
  ∧ suspended (client w'') = suspended (client w)
  ∧ db w'' = db w'.
Proof.
  intros Hfl Hfind Hcool Href Hfresh i w' w''. subst i w' w''.
  assert (∀ tbl cl row,
            row ∈ Db.select_coupons
                    (Db.mk (Db.update_row true (Coupon.id c) <$> tbl) cl) →
            Coupon.id row = Coupon.id c → Coupon.is_claimed row = true)
    as Hmarked.
  { intros tbl cl row Hrow Hid.
    rewrite (proj2 (DbFacts.select_coupons_sorted _)) in Hrow.
    cbn [Db.coupons] in Hrow.
    apply list_elem_of_fmap in Hrow as (r & -> & _).
    by apply update_row_marks. }
  assert (∀ cl b, ∃ T',
            most_recent_claim
              (Db.mk (Db.update_row true (Coupon.id c) <$> Db.coupons (db w))
                     (cl ++ [Claim.mk g3 (Coupon.id c) "client-ip" b t3]))
            = Some T' ∧ t3 ≤ T') as Hnewest.
  { intros cl b. unfold most_recent_claim. cbn [Db.claims].
    destruct (latest _) as [T'|] eqn:HT.
    - exists T'. split; [done|]. apply DbFacts.latest_Some in HT as [_ Hle].
      apply Hle. rewrite fmap_app. apply elem_of_app. right. cbn. left.
    - exfalso. rewrite fmap_app in HT. cbn in HT.
      by destruct (Claim.claimed_at <$> cl). }
  open_world w. subst cl.
  unfold attempt, run. cbn [foldl client suspended].
  fire. rewrite Hfind. norm. crank.
  all: try cooldown_clash.
  all: try (rewrite insert_check_after_update, Href, Hfresh in *;
            discriminate).
  all: cbn [Db.update_coupon Db.coupons Db.claims].
  all: match goal with
       | |- context [mkWorld _ (Db.mk ?tbl ?cl)] =>
           remember (Db.mk tbl cl) as D eqn:HD
       end.
  all: assert (∃ T', most_recent_claim D = Some T' ∧ t3 ≤ T')
         as (T' & HT' & Hle) by (subst D; apply Hnewest).
  all: assert (∀ row, row ∈ Db.select_coupons D →
                      Coupon.id row = Coupon.id c →
                      Coupon.is_claimed row = true)
         as HD' by (subst D; apply Hmarked).
  all: rewrite !deliver_before_one; unfold answer; cbn [Db.handle fst snd];
    norm.
  all: rewrite !deliver_last; unfold answer; cbn [Db.handle fst snd].
  all: rewrite !DbFacts.select_recent_claim_latest, !HT'; norm.
  all: split; [by rewrite HD|]; split; [done|]; split;
    [|split; [by exists T'|done]].
  all: intros c' Hc' Hid; apply find_some in Hc' as [Hin Hun];
    apply list_elem_of_In in Hin;
    by rewrite (HD' _ Hin Hid) in Hun.
Qed.

Lemma refresh_after_successful_claim_witness :
  let o := Scenario.clock_from (2 * Scenario.minute) in
  let w := Scenario.quiet o in
  let c := Coupon.mk "coupon-0" "SAVE10" "10% off your next purchase" false 0 in
  let t3 := 2 * Scenario.minute in
  let i := length (suspended (client w)) in
  let w' := attempt o (Reached "" 0) (Reached "" 0) (Reached "claim-1" t3) w in
  let w'' := run o [Deliver i (Reached "" 0); Deliver i (Reached "" 0)] w' in
  coupons (state (client w'')) = Db.select_coupons (db w')
  ∧ (∀ row, row ∈ coupons (state (client w'')) →
            Coupon.id row = Coupon.id c → Coupon.is_claimed row = true)
  ∧ (∀ c', find (λ c, negb (Coupon.is_claimed c)) (coupons (state (client w'')))
           = Some c' →
           Coupon.id c' ≠ Coupon.id c)
  ∧ (∃ T', most_recent_claim (db w') = Some T'
           ∧ t3 ≤ T'
           ∧ nextClaimTime (state (client w'')) = Some (T' + hour))
  ∧ loading (state (client w'')) = false
  ∧ suspended (client w'') = suspended (client w)
  ∧ db w'' = db w'.
Proof.
  intros o w c t3.
  refine (refresh_after_successful_claim
            o w c (Reached "" 0) "" 0 "claim-1" t3 "" 0 "" 0 _ _ _ _ _).
  - vm_compute; reflexivity.
  - vm_compute; reflexivity.
  - intros T HT. vm_compute in HT. discriminate.
  - vm_compute; reflexivity.
  - vm_compute; reflexivity.
Defined.

(** Every claim attempt that is not stopped by the in-flight guard ends
    with the button released and with exactly one message to the visitor:
    no coupon, wait, failure (also logged to the console) or the code
    claimed. *)
Theorem every_attempt_ends_with_one_message
    (o : Oracle) (w : World) (n1 n2 n3 : Net) :
  claiming (state (client w)) = false →
  let w' := attempt o n1 n2 n3 w in
  claiming (state (client w')) = false
  ∧ ∃ shown,
      notices (client w') = notices (client w) ++ shown
      ∧ (shown = [ToastErrorShown "No coupons available"]
         ∨ shown = [ToastErrorShown "Please wait 1 hour between claims"]
         ∨ shown = [ToastErrorShown "Failed to claim coupon";
                    ConsoleErrorLogged]
         ∨ ∃ code, shown = [ToastSuccessShown ("Claimed coupon: " +:+ code)]).
Proof.
  intros Hfl w'. subst w'. open_world w. subst cl.
  start. crank.
  all: cbn [client state claiming notices].
  all: split; [done|]; eexists; split;
    [first [reflexivity | by rewrite <- app_assoc]|].
  all: first [ by left
             | by right; left
             | by right; right; left
             | right; right; right; by eexists ].
Qed.

Lemma every_attempt_ends_with_one_message_witness :
  let o := Scenario.clock_from (16 * Scenario.minute) in
  let w := Scenario.overtaken o in
  let w' := attempt o (Reached "" 0) Failed Failed w in
  claiming (state (client w')) = false
  ∧ ∃ shown,
      notices (client w') = notices (client w) ++ shown
      ∧ (shown = [ToastErrorShown "No coupons available"]
         ∨ shown = [ToastErrorShown "Please wait 1 hour between claims"]
         ∨ shown = [ToastErrorShown "Failed to claim coupon";
                    ConsoleErrorLogged]
         ∨ ∃ code, shown = [ToastSuccessShown ("Claimed coupon: " +:+ code)]).
Proof.
  intros o w.
  refine (every_attempt_ends_with_one_message o w _ _ _ _).
  vm_compute; reflexivity.
Defined.

End ClientExtras.

(** ** What holds in every state a tab can reach *)

Module ReachExtras.
Import App Spec Guards AppFacts.

(** Walk through a body, whatever its effects return. *)
Ltac walk_body :=
  repeat first
    [ done
    | split
    | intros [[|? ?]|]
    | intros [?|]
    | intros []
    | intros ?
    | progress cbn
    | match goal with
      | |- context [if String.eqb ?b "" then _ else _] =>
          destruct (String.eqb b "") eqn:?
      | |- context [if ?b then _ else _] => destruct b
      end ].

(** *** The stored identifier *)

Lemma exec_parks_keepers (o : Oracle) (p : Prog) (c : Client)
    (missing : bool) :
  keeps_identifier missing p →
  Forall task_keeps_identifier (suspended c) →
  Forall task_keeps_identifier (suspended (exec o p c)).
Proof.
  revert c missing.
  induction p as [cpl|X e k IH|child IHchild k IHk];
    intros c missing Hp Htasks.
  - done.
  - destruct Hp as [He Hk]. cbn [exec].
    destruct (sync o e c) as [[x c']|] eqn:Hsync.
    + apply (IH x c' (missing_after missing e x)); [apply Hk|].
      destruct e; cbn in Hsync; by simplify_eq.
    + cbn [park suspended]. apply Forall_app. split; [done|].
      repeat constructor. intros x. specialize (Hk x). by destruct e.
  - destruct Hp as [Hchild Hk]. cbn [exec].
    apply (IHk _ false); [done|]. by apply (IHchild _ false).
Qed.

Lemma exec_keeps_identifier (o : Oracle) (p : Prog) (c : Client)
    (missing : bool) (b : string) :
  keeps_identifier missing p →
  (missing = true → ¬ ∃ b', identified c b') →
  identified c b →
  identified (exec o p c) b.
Proof.
  revert c missing.
  induction p as [cpl|X e k IH|child IHchild k IHk];
    intros c missing Hp Hmissing Hid.
  - done.
  - destruct Hp as [He Hk]. cbn [exec].
    destruct (sync o e c) as [[x c']|] eqn:Hsync; [|by destruct e].
    apply (IH x c' (missing_after missing e x)); [apply Hk| |].
    + destruct e; cbn in Hsync; simplify_eq; cbn; try done.
      destruct (String.eqb key "browser_id") eqn:Hkey; [|done].
      apply String.eqb_eq in Hkey as ->.
      intros Hm (b' & Hb' & Hne). rewrite Hb' in Hm.
      by apply String.eqb_eq in Hm.
    + destruct e; cbn in Hsync; simplify_eq; try done.
      cbn in He. exfalso. apply (Hmissing He). by exists b.
  - destruct Hp as [Hchild Hk]. cbn [exec].
    apply (IHk _ false); [done|done|]. by apply (IHchild _ false).
Qed.

Lemma claimCoupon_keeps_identifier (r : State) :
  keeps_identifier false (claimCoupon r).
Proof.
  unfold claimCoupon. destruct (claiming r); [done|].
  destruct (find _ (coupons r)) as [c|]; [|by cbn].
  cbn. unfold updateTimeLeft. walk_body.
Qed.

Lemma mount_keeps_identifier :
  keeps_identifier false (Fork fetchCoupons (Fork checkLastClaim (Done Normal))).
Proof.
  cbn. repeat split; try done.
  - intros [l|]; by cbn.
  - intros [[|t ts]|]; by cbn.
Qed.

Lemma tick_keeps_identifier (r : State) :
  keeps_identifier false (call (updateTimeLeft r)).
Proof.
  unfold updateTimeLeft. destruct (negb _); [done|]. cbn. split; [done|].
  intros now. destruct (_ <=? _); by cbn.
Qed.

(** What a step runs, and the client it runs it in. *)
Lemma step_runs (o : Oracle) (l : Label) (w : World) :
  client (step o l w) = client w
  ∨ ∃ p c,
      client (step o l w) = exec o p c
      ∧ localStorage c = localStorage (client w)
      ∧ state c = state (client w)
      ∧ (p = Fork fetchCoupons (Fork checkLastClaim (Done Normal))
         ∧ suspended c = suspended (client w)
         ∨ (p = claimCoupon (state (client w))
            ∧ suspended c = suspended (client w))
         ∨ (p = call (updateTimeLeft (state (client w)))
            ∧ suspended c = suspended (client w))
         ∨ ∃ i X (req : Request X) k resp,
             suspended (client w) !! i = Some (Suspended (Await req) k)
             ∧ p = k resp
             ∧ suspended c = delete i (suspended (client w))).
Proof.
  destruct l as [| | | |i net|X req net]; unfold step; cbn [client].
  - right. eexists _, _. split; [done|]. repeat split. by left.
  - right. eexists _, _. split; [done|]. repeat split. right. by left.
  - destruct (button_disabled _); [by left|].
    right. eexists _, _. split; [done|]. repeat split. right. by left.
  - destruct (truthy_number _); [|by left].
    right. eexists _, _. split; [done|]. repeat split. right. right. by left.
  - destruct (suspended (client w) !! i) as [[X e k]|] eqn:Hi; [|by left].
    unfold resume. destruct e; try by left.
    destruct (answer req net (db w)) as [resp d']. cbn [client].
    right. eexists _, _. split; [done|]. repeat split.
    right. right. right. by eexists i, _, req, k, resp.
  - by left.
Qed.

Lemma step_parks_keepers (o : Oracle) (l : Label) (w : World) :
  Forall task_keeps_identifier (suspended (client w)) →
  Forall task_keeps_identifier (suspended (client (step o l w))).
Proof.
  intros Htasks.
  destruct (step_runs o l w) as [->|(p & c & -> & _ & _ & Hp)]; [done|].
  destruct Hp as [[-> Hs]|[[-> Hs]|[[-> Hs]|(i & X & req & k & resp & Hi & -> & Hs)]]];
    apply (exec_parks_keepers _ _ _ false); rewrite ?Hs; try done.
  - apply mount_keeps_identifier.
  - apply claimCoupon_keeps_identifier.
  - apply tick_keeps_identifier.
  - rewrite Forall_forall in Htasks.
    apply (Htasks (Suspended (Await req) k)).
    by eapply list_elem_of_lookup_2.
  - rewrite Forall_forall in Htasks |- *.
    intros t Hin. apply Htasks. by eapply list_elem_of_delete_inv.
Qed.

Lemma step_keeps_identifier (o : Oracle) (l : Label) (w : World) (b : string) :
  Forall task_keeps_identifier (suspended (client w)) →
  identified (client w) b →
  identified (client (step o l w)) b.
Proof.
  intros Htasks Hid.
  destruct (step_runs o l w) as [->|(p & c & -> & Hls & _ & Hp)]; [done|].
  assert (identified c b) as Hc by (unfold identified; by rewrite Hls).
  destruct Hp as [[-> Hs]|[[-> Hs]|[[-> Hs]|(i & X & req & k & resp & Hi & -> & Hs)]]];
    apply (exec_keeps_identifier _ _ _ false); try done.
  - apply mount_keeps_identifier.
  - apply claimCoupon_keeps_identifier.
  - apply tick_keeps_identifier.
  - rewrite Forall_forall in Htasks.
    apply (Htasks (Suspended (Await req) k)).
    by eapply list_elem_of_lookup_2.
Qed.

Lemma run_parks_keepers (o : Oracle) (ls : list Label) (w : World) :
  Forall task_keeps_identifier (suspended (client w)) →
  Forall task_keeps_identifier (suspended (client (run o ls w))).
Proof.
  unfold run. revert w. induction ls as [|l ls IH]; intros w Hw; [done|].
  cbn [foldl]. by apply IH, step_parks_keepers.
Qed.

(** In any run of a tab from its first render, whatever is scheduled in
    whatever order, a usable browser identifier that is in [localStorage]
    at some point is still there, unchanged, at every later point. *)
Theorem stored_identifier_is_never_replaced
    (o : Oracle) (d : Db.t) (before after : list Label) (b : string) :
  let w := run o before (mkWorld initial_client d) in
  identified (client w) b →
  identified (client (run o after w)) b.
Proof.
  intros w Hid.
  assert (Forall task_keeps_identifier (suspended (client w))) as Htasks
    by (apply run_parks_keepers; constructor).
  clearbody w. unfold run. revert w Hid Htasks.
  induction after as [|l ls IH]; intros w Hid Htasks; [done|].
  cbn [foldl]. apply IH.
  - by apply step_keeps_identifier.
  - by apply step_parks_keepers.
Qed.

Lemma stored_identifier_is_never_replaced_witness :
  let o := Scenario.clock_from (2 * Scenario.minute) in
  let before := Scenario.open_page Scenario.minute
                ++ [Click; Deliver 0 (Reached "" 0)] in
  let after := [Deliver 0 (Reached "" 0); Tick;
                Deliver 0 (Reached "claim-1" (2 * Scenario.minute));
                Mount; Click; Deliver 2 Failed] in
  let w := run o before (mkWorld initial_client Scenario.seeded) in
  identified (client w) "browser-0"
  ∧ identified (client (run o after w)) "browser-0".
Proof.
  intros o before after w.
  assert (identified (client w) "browser-0") as Hid
    by (split; [vm_compute; reflexivity|discriminate]).
  split; [exact Hid|].
  exact (stored_identifier_is_never_replaced
           o Scenario.seeded before after "browser-0" Hid).
Defined.

(** *** One claim at a time *)

Lemma sync_claiming (o : Oracle) {X : Type} (e : Eff X) (c c' : Client)
    (x : X) :
  sync o e c = Some (x, c') →
  claiming (state c') = held_after (claiming (state c)) e
  ∧ suspended c' = suspended c.
Proof. destruct e; cbn; intros; by simplify_eq. Qed.

Lemma exec_bystander (o : Oracle) (p : Prog) (c : Client) :
  bystander p →
  claiming (state (exec o p c)) = claiming (state c)
  ∧ ∃ new, suspended (exec o p c) = suspended c ++ new
           ∧ Forall bystander_task new.
Proof.
  revert c. induction p as [cpl|X e k IH|child IHchild k IHk]; intros c Hp.
  - split; [done|]. exists []. by rewrite app_nil_r.
  - destruct Hp as [He Hk]. cbn [exec].
    destruct (sync o e c) as [[x c']|] eqn:Hsync.
    + destruct (sync_claiming _ _ _ _ _ Hsync) as [Hflag Hsusp].
      destruct (IH x c' (Hk x)) as [-> (new & -> & Hnew)].
      split; [|exists new; by rewrite Hsusp].
      rewrite Hflag. by destruct e.
    + split; [done|]. exists [Suspended e k]. split; [done|].
      by repeat constructor.
  - destruct Hp as [Hchild Hk]. cbn [exec].
    destruct (IHchild c Hchild) as [Hflag1 (new1 & Hs1 & Hnew1)].
    destruct (IHk (exec o child c) Hk) as [-> (new2 & -> & Hnew2)].
    split; [done|]. exists (new1 ++ new2).
    rewrite Hs1, <-(assoc_L (++)). split; [done|]. by apply Forall_app.
Qed.

Lemma exec_releases (o : Oracle) (p : Prog) (c : Client) :
  releases (claiming (state c)) p →
  ∃ new,
    suspended (exec o p c) = suspended c ++ new
    ∧ (claiming (state (exec o p c)) = false ∧ Forall bystander_task new
       ∨ claiming (state (exec o p c)) = true
         ∧ ∃ new1 holder,
             new = new1 ++ [holder]
             ∧ holder_task holder
             ∧ Forall bystander_task new1).
Proof.
  revert c. induction p as [cpl|X e k IH|child IHchild k IHk]; intros c Hp.
  - exists []. rewrite app_nil_r. split; [done|]. left. by split.
  - destruct Hp as [He Hk]. cbn [exec].
    destruct (sync o e c) as [[x c']|] eqn:Hsync.
    + destruct (sync_claiming _ _ _ _ _ Hsync) as [Hflag Hsusp].
      specialize (Hk x). rewrite <-Hflag in Hk.
      destruct (IH x c' Hk) as (new & -> & Hnew).
      exists new. by rewrite Hsusp.
    + exists [Suspended e k]. split; [done|].
      destruct e; cbn in Hsync; try discriminate. cbn in He, Hk.
      right. split; [done|]. exists [], (Suspended (Await req) k).
      repeat split; [|constructor].
      intros x. specialize (Hk x). by rewrite He in Hk.
  - destruct Hp as [Hchild Hk]. cbn [exec].
    destruct (exec_bystander o child c Hchild) as [Hflag (new1 & Hs1 & Hnew1)].
    rewrite <-Hflag in Hk.
    destruct (IHk (exec o child c) Hk) as (new2 & -> & Hnew2).
    exists (new1 ++ new2). rewrite Hs1, <-(assoc_L (++)). split; [done|].
    destruct Hnew2 as [[-> Hnew2]|[-> (new3 & holder & -> & Hholder & Hnew3)]].
    + left. split; [done|]. by apply Forall_app.
    + right. split; [done|]. exists (new1 ++ new3), holder.
      rewrite <-(assoc_L (++)). repeat split; [done|]. by apply Forall_app.
Qed.

Lemma single_flight_same (c c' : Client) :
  state c' = state c → suspended c' = suspended c →
  single_flight c → single_flight c'.
Proof. unfold single_flight. by intros -> ->. Qed.

Lemma exec_bystander_single_flight (o : Oracle) (p : Prog) (c : Client) :
  bystander p → single_flight c → single_flight (exec o p c).
Proof.
  intros Hp Hc.
  destruct (exec_bystander o p c Hp) as [Hflag (new & Hs & Hnew)].
  unfold single_flight. rewrite Hflag, Hs.
  destruct Hc as [[Hdown Hall]|[Hup (before & holder & after & -> & Hh & Hall)]].
  - left. split; [done|]. by apply Forall_app.
  - right. split; [done|]. exists before, holder, (after ++ new).
    rewrite <-(assoc_L (++)). repeat split; [done|].
    rewrite (assoc_L (++)). by apply Forall_app.
Qed.

Lemma exec_releases_single_flight (o : Oracle) (p : Prog) (c : Client) :
  releases (claiming (state c)) p →
  Forall bystander_task (suspended c) →
  single_flight (exec o p c).
Proof.
  intros Hp Hall.
  destruct (exec_releases o p c Hp) as (new & Hs & Hnew).
  unfold single_flight. rewrite Hs.
  destruct Hnew as [[-> Hnew]|[-> (new1 & holder & -> & Hh & Hnew1)]].
  - left. split; [done|]. by apply Forall_app.
  - right. split; [done|]. exists (suspended c ++ new1), holder, [].
    rewrite <-(assoc_L (++)), app_nil_r. repeat split; [done|].
    by apply Forall_app.
Qed.

Lemma delete_beside {A : Type} (P : A → Prop) (before after : list A)
    (h t : A) (i : nat) :
  (before ++ h :: after) !! i = Some t →
  Forall P (before ++ after) →
  t = h ∧ delete i (before ++ h :: after) = before ++ after
  ∨ P t ∧ ∃ before' after',
            delete i (before ++ h :: after) = before' ++ h :: after'
            ∧ Forall P (before' ++ after').
Proof.
  revert i. induction before as [|a before IH]; intros [|i] Hi Hall.
  - left. by simplify_eq/=.
  - right. cbn in Hi, Hall. split; [by eapply Forall_lookup_1|].
    exists [], (delete i after). split; [done|]. by apply Forall_delete.
  - right. simplify_eq/=. apply Forall_cons in Hall as [Ht Hall].
    split; [done|]. by exists before, after.
  - apply Forall_cons in Hall as [Ha Hall].
    change (delete (S i) ((a :: before) ++ h :: after))
      with (a :: delete i (before ++ h :: after)).
    destruct (IH i Hi Hall) as [[-> ->]|[Ht (before' & after' & -> & Hall')]].
    + by left.
    + right. split; [done|]. exists (a :: before'), after'.
      split; [done|]. by constructor.
Qed.

Lemma mount_bystander :
  bystander (Fork fetchCoupons (Fork checkLastClaim (Done Normal))).
Proof.
  cbn. repeat split; try done.
  - intros [l|]; by cbn.
  - intros [[|t ts]|]; by cbn.
Qed.

Lemma tick_bystander (r : State) : bystander (call (updateTimeLeft r)).
Proof.
  unfold updateTimeLeft. destruct (negb _); [done|]. cbn. split; [done|].
  intros now. destruct (_ <=? _); by cbn.
Qed.

Lemma claimCoupon_releases (r : State) :
  claiming r = false → releases false (claimCoupon r).
Proof.
  intros Hr. unfold claimCoupon. rewrite Hr.
  destruct (find _ (coupons r)) as [c|]; [|by cbn].
  cbn. unfold updateTimeLeft. walk_body.
Qed.

Lemma step_single_flight (o : Oracle) (l : Label) (w : World) :
  single_flight (client w) → single_flight (client (step o l w)).
Proof.
  intros Hw.
  destruct (step_runs o l w) as [->|(p & c & -> & _ & Hst & Hp)]; [done|].
  destruct Hp as [[-> Hs]|[[-> Hs]|[[-> Hs]|(i & X & req & k & resp & Hi & -> & Hs)]]].
  - apply exec_bystander_single_flight; [apply mount_bystander|].
    by apply (single_flight_same (client w)).
  - destruct (claiming (state (client w))) eqn:Hflag.
    + unfold claimCoupon. rewrite Hflag. cbn [exec].
      by apply (single_flight_same (client w)).
    + apply exec_releases_single_flight.
      * rewrite Hst, Hflag. by apply claimCoupon_releases.
      * rewrite Hs. destruct Hw as [[_ Hall]|[Hup _]]; [done|congruence].
  - apply exec_bystander_single_flight; [apply tick_bystander|].
    by apply (single_flight_same (client w)).
  - destruct Hw as [[Hdown Hall]|[Hup (before & holder & after & Hsusp & Hh & Hall)]].
    + apply exec_bystander_single_flight.
      * eapply Forall_lookup_1 in Hi; [|exact Hall]. apply Hi.
      * left. rewrite Hst, Hs. split; [done|]. by apply Forall_delete.
    + rewrite Hsusp in Hi, Hs.
      destruct (delete_beside bystander_task _ _ _ _ _ Hi Hall)
        as [[<- Hdel]|[Ht (before' & after' & Hdel & Hall')]];
        rewrite Hdel in Hs.
      * apply exec_releases_single_flight.
        -- rewrite Hst, Hup. apply Hh.
        -- by rewrite Hs.
      * apply exec_bystander_single_flight; [apply Ht|].
        right. rewrite Hst, Hs. split; [done|].
        by exists before', holder, after'.
Qed.

Lemma run_single_flight (o : Oracle) (ls : list Label) (w : World) :
  single_flight (client w) → single_flight (client (run o ls w)).
Proof.
  unfold run. revert w. induction ls as [|l ls IH]; intros w Hw; [done|].
  cbn [foldl]. by apply IH, step_single_flight.
Qed.

Lemma bystanders_send_no_write (l : list Task) :
  Forall bystander_task l →
  Forall (λ r, is_write r = false) (omap awaited l).
Proof.
  induction 1 as [|[X e k] l [He _] _ IH]; [constructor|].
  cbn. destruct e; try done. cbn. by constructor.
Qed.

Lemma no_write_filter (l : list AnyRequest) :
  Forall (λ r, is_write r = false) l →
  filter (λ r, is_write r = true) l = [].
Proof.
  induction 1 as [|r l Hr _ IH]; [done|].
  rewrite filter_cons, IH. destruct (decide _); congruence.
Qed.

(** In every state a tab can reach from its first render, whatever is
    scheduled in whatever order: either [claiming] is false and every
    parked function only reads the store, or [claiming] is true and exactly
    one parked function is a [claimCoupon] that will set it back.  So at
    most one write request (coupon update or claim insert) of the tab is
    in flight at any time, and none while [claiming] is false. *)
Theorem one_claim_at_a_time (o : Oracle) (d : Db.t) (ls : list Label) :
  let c := client (run o ls (mkWorld initial_client d)) in
  single_flight c
  ∧ (length (filter (λ r, is_write r = true) (requests_in_flight c)) ≤ 1)%nat
  ∧ (claiming (state c) = false →
     Forall (λ r, is_write r = false) (requests_in_flight c)).
Proof.
  intros c.
  assert (single_flight c) as Hc.
  { apply run_single_flight. left. split; [done|constructor]. }
  split; [done|]. unfold requests_in_flight.
  destruct Hc as [[Hdown Hall]|[Hup (before & holder & after & -> & Hh & Hall)]].
  - split; [|by intros; apply bystanders_send_no_write].
    rewrite no_write_filter by by apply bystanders_send_no_write.
    cbn. lia.
  - split; [|congruence].
    apply Forall_app in Hall as [Hb Ha].
    rewrite omap_app, filter_app, (no_write_filter (omap awaited before))
      by by apply bystanders_send_no_write.
    change (holder :: after) with ([holder] ++ after).
    rewrite omap_app, filter_app, (no_write_filter (omap awaited after))
      by by apply bystanders_send_no_write.
    rewrite app_nil_r. cbn.
    destruct (awaited holder) as [r|]; cbn; [|lia].
    destruct (decide _); cbn; lia.
Qed.

(** *** The loading flag *)

Lemma exec_lowers_loading (o : Oracle) (p : Prog) (c : Client) :
  lowers_loading p →
  Forall task_lowers_loading (suspended c) →
  (loading (state c) = false → loading (state (exec o p c)) = false)
  ∧ Forall task_lowers_loading (suspended (exec o p c)).
Proof.
  revert c. induction p as [cpl|X e k IH|child IHchild k IHk];
    intros c Hp Htasks.
  - done.
  - destruct Hp as [He Hk]. cbn [exec].
    destruct (sync o e c) as [[x c']|] eqn:Hsync.
    + destruct (IH x c' (Hk x)) as [Hflag Hparked].
      * destruct e; cbn in Hsync; by simplify_eq.
      * split; [|done]. intros Hc. apply Hflag.
        destruct e; cbn in Hsync, He; by simplify_eq.
    + split; [done|]. cbn [park suspended]. apply Forall_app.
      split; [done|]. by repeat constructor.
  - destruct Hp as [Hchild Hk]. cbn [exec].
    destruct (IHchild c Hchild Htasks) as [Hflag1 Hparked1].
    destruct (IHk _ Hk Hparked1) as [Hflag2 Hparked2]. auto.
Qed.

Lemma mount_lowers_loading :
  lowers_loading (Fork fetchCoupons (Fork checkLastClaim (Done Normal))).
Proof.
  cbn. repeat split; try done.
  - intros [l|]; by cbn.
  - intros [[|t ts]|]; by cbn.
Qed.

Lemma tick_lowers_loading (r : State) :
  lowers_loading (call (updateTimeLeft r)).
Proof.
  unfold updateTimeLeft. destruct (negb _); [done|]. cbn. split; [done|].
  intros now. destruct (_ <=? _); by cbn.
Qed.

Lemma claimCoupon_lowers_loading (r : State) : lowers_loading (claimCoupon r).
Proof.
  unfold claimCoupon. destruct (claiming r); [done|].
  destruct (find _ (coupons r)) as [c|]; [|by cbn].
  cbn. unfold updateTimeLeft. walk_body.
Qed.

Lemma step_lowers_loading (o : Oracle) (l : Label) (w : World) :
  Forall task_lowers_loading (suspended (client w)) →
  (loading (state (client w)) = false →
   loading (state (client (step o l w))) = false)
  ∧ Forall task_lowers_loading (suspended (client (step o l w))).
Proof.
  intros Htasks.
  destruct (step_runs o l w) as [->|(p & c & -> & _ & Hst & Hp)]; [done|].
  rewrite <-Hst.
  destruct Hp as [[-> Hs]|[[-> Hs]|[[-> Hs]|(i & X & req & k & resp & Hi & -> & Hs)]]];
    apply exec_lowers_loading; rewrite ?Hs; try done.
  - apply mount_lowers_loading.
  - apply claimCoupon_lowers_loading.
  - apply tick_lowers_loading.
  - eapply Forall_lookup_1 in Hi; [|exact Htasks]. apply Hi.
  - by apply Forall_delete.
Qed.

Lemma run_lowers_loading (o : Oracle) (ls : list Label) (w : World) :
  Forall task_lowers_loading (suspended (client w)) →
  (loading (state (client w)) = false →
   loading (state (client (run o ls w))) = false)
  ∧ Forall task_lowers_loading (suspended (client (run o ls w))).
Proof.
  unfold run. revert w. induction ls as [|l ls IH]; intros w Hw; [done|].
  cbn [foldl]. destruct (step_lowers_loading o l w Hw) as [Hflag Hparked].
  destruct (IH _ Hparked) as [Hflag' Hparked']. auto.
Qed.

(** In any run of a tab from its first render, once [loading] is false it
    is false at every later point: nothing the tab runs sets it back, so
    the button is never disabled by [loading] again. *)
Theorem loading_never_returns
    (o : Oracle) (d : Db.t) (before after : list Label) :
  let w := run o before (mkWorld initial_client d) in
  loading (state (client w)) = false →
  loading (state (client (run o after w))) = false.
Proof.
  intros w. apply run_lowers_loading.
  apply (run_lowers_loading o before (mkWorld initial_client d)). constructor.
Qed.

Lemma loading_never_returns_witness :
  let o := Scenario.clock_from (2 * Scenario.minute) in
  let before := Scenario.open_page Scenario.minute in
  let after := [Click; Deliver 0 (Reached "" 0); Mount; Tick;
                Deliver 0 (Reached "" 0); Deliver 1 Failed] in
  let w := run o before (mkWorld initial_client Scenario.seeded) in
  loading (state (client w)) = false
  ∧ loading (state (client (run o after w))) = false.
Proof.
  intros o before after w.
  assert (loading (state (client w)) = false) as Hw
    by (vm_compute; reflexivity).
  split; [exact Hw|].
  exact (loading_never_returns o Scenario.seeded before after Hw).
Defined.

(** *** The countdown and its deadline *)

Lemma exec_keeps_countdown (o : Oracle) (p : Prog) (c : Client)
    (deadline cleared : bool) :
  keeps_countdown deadline cleared p →
  (deadline = true → nextClaimTime (state c) ≠ None) →
  (cleared = true → timeLeft (state c) = None) →
  countdown_has_deadline (state c) →
  Forall task_keeps_countdown (suspended c) →
  countdown_has_deadline (state (exec o p c))
  ∧ Forall task_keeps_countdown (suspended (exec o p c)).
Proof.
  revert c deadline cleared.
  induction p as [cpl|X e k IH|child IHchild k IHk];
    intros c deadline cleared Hp Hdeadline Hcleared Hc Htasks.
  - done.
  - destruct Hp as [He Hk]. cbn [exec].
    destruct (sync o e c) as [[x c']|] eqn:Hsync.
    + apply (IH x c' _ _ (Hk x));
        destruct e; cbn in Hsync; simplify_eq; cbn in *; try done.
      * by intros ?%bool_decide_eq_true.
      * intros ?%bool_decide_eq_true. done.
      * unfold countdown_has_deadline in *. cbn.
        destruct v; [done|]. intros Hshown. by destruct (Hshown (Hcleared He)).
      * unfold countdown_has_deadline in *. cbn.
        destruct v; [|done]. intros _. by apply Hdeadline.
    + split; [done|]. cbn [park suspended]. apply Forall_app.
      split; [done|]. repeat constructor.
      intros x. specialize (Hk x). by destruct e.
  - destruct Hp as [Hchild Hk]. cbn [exec].
    destruct (IHchild c _ _ Hchild Hdeadline Hcleared Hc Htasks)
      as [Hc1 Hparked1].
    by apply (IHk _ false false).
Qed.

Lemma mount_keeps_countdown :
  keeps_countdown false false
    (Fork fetchCoupons (Fork checkLastClaim (Done Normal))).
Proof.
  cbn. repeat split; try done.
  - intros [l|]; by cbn.
  - intros [[|t ts]|]; by cbn.
Qed.

Lemma tick_keeps_countdown (r : State) (cleared : bool) :
  keeps_countdown (truthy_number (nextClaimTime r)) cleared
    (call (updateTimeLeft r)).
Proof.
  unfold updateTimeLeft. destruct (truthy_number _); [|done].
  cbn. split; [done|]. intros now. destruct (_ <=? _); by cbn.
Qed.

Lemma refusal_keeps_countdown (r : State) (cleared : bool) :
  keeps_countdown true cleared (call (updateTimeLeft r)).
Proof.
  unfold updateTimeLeft. destruct (negb _); [done|].
  cbn. split; [done|]. intros now. destruct (_ <=? _); by cbn.
Qed.

Lemma claimCoupon_keeps_countdown (r : State) :
  keeps_countdown false false (claimCoupon r).
Proof.
  unfold claimCoupon. destruct (claiming r); [done|].
  destruct (find _ (coupons r)) as [c|]; [|by cbn].
  cbn. unfold updateTimeLeft. walk_body.
Qed.

Lemma step_keeps_countdown (o : Oracle) (l : Label) (w : World) :
  countdown_has_deadline (state (client w)) →
  Forall task_keeps_countdown (suspended (client w)) →
  countdown_has_deadline (state (client (step o l w)))
  ∧ Forall task_keeps_countdown (suspended (client (step o l w))).
Proof.
  intros Hw Htasks.
  destruct (step_runs o l w) as [->|(p & c & -> & _ & Hst & Hp)]; [done|].
  rewrite <-Hst in Hw.
  destruct Hp as [[-> Hs]|[[-> Hs]|[[-> Hs]|(i & X & req & k & resp & Hi & -> & Hs)]]].
  - apply (exec_keeps_countdown _ _ _ false false); rewrite ?Hs; try done.
    apply mount_keeps_countdown.
  - apply (exec_keeps_countdown _ _ _ false false); rewrite ?Hs; try done.
    apply claimCoupon_keeps_countdown.
  - apply (exec_keeps_countdown _ _ _
             (truthy_number (nextClaimTime (state (client w)))) false);
      rewrite ?Hs; try done.
    + apply tick_keeps_countdown.
    + rewrite Hst. by destruct (nextClaimTime _).
  - apply (exec_keeps_countdown _ _ _ false false); rewrite ?Hs; try done.
    + eapply Forall_lookup_1 in Hi; [|exact Htasks]. apply Hi.
    + by apply Forall_delete.
Qed.

(** In every state a tab can reach from its first render, a countdown text
    is shown only while a deadline is set: [timeLeft] is not null only if
    [nextClaimTime] is not null. *)
Theorem countdown_needs_a_deadline
    (o : Oracle) (d : Db.t) (ls : list Label) :
  let s := state (client (run o ls (mkWorld initial_client d))) in
  timeLeft s ≠ None → nextClaimTime s ≠ None.
Proof.
  cut (∀ w,
         countdown_has_deadline (state (client w)) →
         Forall task_keeps_countdown (suspended (client w)) →
         countdown_has_deadline (state (client (run o ls w)))).
  { intros Hrun. apply Hrun; [|constructor]. intros Hshown. by destruct Hshown. }
  unfold run. induction ls as [|l ls IH]; intros w Hw Htasks; [done|].
  cbn [foldl]. destruct (step_keeps_countdown o l w Hw Htasks). by apply IH.
Qed.

Lemma countdown_needs_a_deadline_witness :
  let o := Scenario.clock_from (2 * Scenario.minute) in
  let ls := Scenario.claimed_elsewhere "coupon-0" "claim-1" "someone-else"
                                       Scenario.minute
            ++ Scenario.open_page (2 * Scenario.minute) ++ [Tick] in
  let s := state (client (run o ls (mkWorld initial_client Scenario.seeded))) in
  timeLeft s ≠ None ∧ nextClaimTime s ≠ None.
Proof.
  intros o ls s.
  assert (timeLeft s ≠ None) as Hs
    by (intros H; vm_compute in H; discriminate).
  split; [exact Hs|].
  exact (countdown_needs_a_deadline o Scenario.seeded ls Hs).
Defined.

End ReachExtras.
